(** * md_excel.py: Markdown table codec, encoding detection and converters

    A shallow embedding of [MarkdownExcelConverter] (src/md_excel.py).

    - Python [str] values are lists of Unicode code points ([N]); the
      built-in string methods the converter calls ([split], [strip],
      [rstrip], [join], [startswith], [in]) are written out on that
      representation.
    - [re.match] is a derivative-based prefix matcher over a small regular
      expression syntax; the separator pattern of [_parse_table_lines] is a
      term of that syntax.
    - A [DataFrame] is its column labels and its rows of cells.
    - File access, printing and the calls into pandas, chardet and the
      codecs machinery run in a state-and-exception monad over a [World];
      what those libraries answer is a parameter of the model. *)

From Stdlib Require Import String Ascii Strings.Byte DecimalString Floats.
From Stdlib Require Import List Arith NArith Bool Lia.
From Stdlib Require DecimalNat Finite.
Import ListNotations.

Local Open Scope N_scope.
Local Open Scope list_scope.

(** ** Python strings *)

Definition str := list N.

(** The code points of an ASCII literal. *)
Fixpoint u (s : string) : str :=
  match s with
  | EmptyString => []
  | String a s' => N_of_ascii a :: u s'
  end.

Definition PIPE : N := 124.
Definition NEWLINE : N := 10.
Definition SPACE : N := 32.

(** [str.isspace] on one code point, which is also what [str.strip] removes
    and what [\s] matches in a [str] pattern. *)
Definition isspace (c : N) : bool :=
  ((9 <=? c) && (c <=? 13)) || ((28 <=? c) && (c <=? 32))
  || (c =? 133) || (c =? 160) || (c =? 5760)
  || ((8192 <=? c) && (c <=? 8202))
  || (c =? 8232) || (c =? 8233) || (c =? 8239) || (c =? 8287) || (c =? 12288).

Fixpoint lstrip (s : str) : str :=
  match s with
  | [] => []
  | c :: s' => if isspace c then lstrip s' else s
  end.

(** [s.rstrip()] *)
Definition rstrip (s : str) : str := rev (lstrip (rev s)).

(** [s.strip()] *)
Definition strip (s : str) : str := rstrip (lstrip s).

(** [c in s] for a one-character [c] *)
Definition contains (c : N) (s : str) : bool := existsb (N.eqb c) s.

(** [s.startswith(c)] for a one-character [c] *)
Definition startswith (c : N) (s : str) : bool :=
  match s with
  | [] => false
  | d :: _ => d =? c
  end.

(** [s.split(sep)] for a one-character separator: never empty, one more
    field than there are separators. *)
Fixpoint split (sep : N) (s : str) : list str :=
  match s with
  | [] => [[]]
  | c :: s' =>
      if c =? sep then [] :: split sep s'
      else match split sep s' with
           | [] => [[c]]
           | f :: fs => (c :: f) :: fs
           end
  end.

(** [sep.join(parts)] *)
Fixpoint join (sep : str) (parts : list str) : str :=
  match parts with
  | [] => []
  | [p] => p
  | p :: ps => p ++ sep ++ join sep ps
  end.

(** [l[1:-1]] *)
Definition slice_1_m1 {A : Type} (l : list A) : list A := removelast (tl l).

(** [l[1:]] and [l[2:]] *)
Definition slice_1 {A : Type} (l : list A) : list A := skipn 1 l.
Definition slice_2 {A : Type} (l : list A) : list A := skipn 2 l.

(** Truthiness of a string or a list: non-empty. *)
Definition truthy {A : Type} (l : list A) : bool :=
  match l with [] => false | _ => true end.

(** ** Regular expressions and [re.match] *)

Module Re.

Inductive regex : Type :=
| Void : regex
| Eps : regex
| Chr : N -> regex
| Cls : (N -> bool) -> regex
| Seq : regex -> regex -> regex
| Alt : regex -> regex -> regex
| Star : regex -> regex.

(** [r+] *)
Definition Plus (r : regex) : regex := Seq r (Star r).

Fixpoint nullable (r : regex) : bool :=
  match r with
  | Void => false
  | Eps => true
  | Chr _ => false
  | Cls _ => false
  | Seq a b => nullable a && nullable b
  | Alt a b => nullable a || nullable b
  | Star _ => true
  end.

Fixpoint deriv (c : N) (r : regex) : regex :=
  match r with
  | Void => Void
  | Eps => Void
  | Chr d => if c =? d then Eps else Void
  | Cls p => if p c then Eps else Void
  | Seq a b =>
      if nullable a then Alt (Seq (deriv c a) b) (deriv c b)
      else Seq (deriv c a) b
  | Alt a b => Alt (deriv c a) (deriv c b)
  | Star a => Seq (deriv c a) (Star a)
  end.

(** [re.match(r, s) is not None]: some prefix of [s] is in the language
    of [r]. *)
Fixpoint re_match (r : regex) (s : str) : bool :=
  nullable r ||
  match s with
  | [] => false
  | c :: s' => re_match (deriv c r) s'
  end.

(** The language of a regular expression. *)
Inductive lang : regex -> str -> Prop :=
| LEps : lang Eps []
| LChr c : lang (Chr c) [c]
| LCls p c : p c = true -> lang (Cls p) [c]
| LSeq a b s t : lang a s -> lang b t -> lang (Seq a b) (s ++ t)
| LAltL a b s : lang a s -> lang (Alt a b) s
| LAltR a b s : lang b s -> lang (Alt a b) s
| LStar0 a : lang (Star a) []
| LStarS a s t : lang a s -> lang (Star a) t -> lang (Star a) (s ++ t).

End Re.

(** ** DataFrames *)

(** A cell is missing ([None]: NaN) or holds a value, kept as the text
    [str(cell)] gives for it. *)
Definition cell := option str.

Record DataFrame : Type := mkDataFrame {
  columns : list str;
  rows : list (list cell)
}.

(** [pd.DataFrame(data, columns=headers)] for rows of strings *)
Definition DataFrame_of (data : list (list str)) (headers : list str) : DataFrame :=
  mkDataFrame headers (map (map (@Some str)) data).

(** [df.empty]: some axis has length zero. *)
Definition empty (df : DataFrame) : bool :=
  match rows df, columns df with
  | [], _ => true
  | _, [] => true
  | _, _ => false
  end.

(** [df.fillna('')] *)
Definition fillna (df : DataFrame) : DataFrame :=
  mkDataFrame (columns df)
    (map (map (fun c : cell => match c with None => Some [] | Some s => Some s end))
         (rows df)).

(** [str(cell) if pd.notna(cell) else ""] *)
Definition cell_text (c : cell) : str :=
  match c with
  | Some s => s
  | None => []
  end.

(** ** Extraction: [_parse_table_lines] and [_extract_markdown_tables] *)

(** The character class [[\s:-]]. *)
Definition sep_class (c : N) : bool := isspace c || (c =? 58) || (c =? 45).

(** The pattern [^\|[\s:-]+\|[\s:-]+\|]. *)
Definition separator_re : Re.regex :=
  Re.Seq (Re.Chr PIPE)
    (Re.Seq (Re.Plus (Re.Cls sep_class))
       (Re.Seq (Re.Chr PIPE)
          (Re.Seq (Re.Plus (Re.Cls sep_class)) (Re.Chr PIPE)))).

(** [[cell.strip() for cell in line.split('|')[1:-1]]] *)
Definition split_cells (line : str) : list str :=
  map strip (slice_1_m1 (split PIPE line)).

(** One turn of the loop over [data_lines] (lines 157-161). *)
Definition data_step (headers : list str) (data : list (list str)) (line : str)
  : list (list str) :=
  if truthy (strip line) && contains PIPE line then
    let cells := split_cells line in
    if (length cells =? length headers)%nat then data ++ [cells] else data
  else data.

(** Lines 149-153: the lines left for the data loop. *)
Definition data_lines_of (lines : list str) : list str :=
  let separator_line := nth 1 lines [] in
  if Re.re_match separator_re separator_line then slice_2 lines
  else slice_1 lines.

Definition _parse_table_lines (lines : list str) : option DataFrame :=
  if (length lines <? 2)%nat then None
  else
    let header_line := nth 0 lines [] in
    let headers := split_cells header_line in
    let data_lines := data_lines_of lines in
    let data := fold_left (data_step headers) data_lines [] in
    if negb (truthy headers) then None
    else Some (DataFrame_of data headers).

(** The loop state of [_extract_markdown_tables]. *)
Record scan : Type := mkScan {
  tables : list DataFrame;
  in_table : bool;
  current_table : list str
}.

(** The [if table_df is not None: tables.append(table_df)] step. *)
Definition flush (tbls : list DataFrame) (block : list str) : list DataFrame :=
  match _parse_table_lines block with
  | Some df => tbls ++ [df]
  | None => tbls
  end.

(** One turn of the loop over [lines] (lines 113-127). *)
Definition scan_step (st : scan) (line0 : str) : scan :=
  let line := rstrip line0 in
  if contains PIPE line && startswith PIPE (strip line) then
    mkScan (tables st) true (current_table st ++ [line])
  else if in_table st && truthy (current_table st) then
    mkScan (flush (tables st) (current_table st)) false []
  else st.

Definition _extract_markdown_tables (content : str) : list DataFrame :=
  let lines := split NEWLINE content in
  let st := fold_left scan_step lines (mkScan [] false []) in
  if in_table st && truthy (current_table st)
  then flush (tables st) (current_table st)
  else tables st.

(** ** Rendering: the text built by [_dataframe_to_md] and [excel_to_md] *)

(** ["| " + " | ".join(cells) + " |\n"] *)
Definition md_row (cells : list str) : str :=
  u "| " ++ join (u " | ") cells ++ u " |" ++ [NEWLINE].

(** The three parts appended to [md_content] for one frame: header row,
    separator row, data rows (lines 271-277 and 205-214). *)
Definition md_table (df : DataFrame) : str :=
  md_row (columns df)
  ++ md_row (repeat (u "---") (length (columns df)))
  ++ concat (map (fun row => md_row (map cell_text row)) (rows df)).


(** ** Exceptions, the world and the effect monad *)

Definition bytes := list byte.

(** The exception classes the converter meets.  All of them derive from
    [Exception]; [FileNotFoundError] is an [OSError]; [LibraryError] stands
    for what pandas and openpyxl raise on bad input. *)
Inductive exn : Type :=
| FileNotFoundError
| OSError
| UnicodeDecodeError
| UnicodeEncodeError
| LookupError
| ImportError
| LibraryError.

(** What the converter prints; each message keeps the values formatted into
    the source's f-string. *)
Inductive message : Type :=
| MsgDetected (encoding : option str)   (* 检测到编码: {encoding} *)
| MsgReadError (e : exn)                (* 读取文件时出错: {e} *)
| MsgNoTables                           (* 未找到Markdown表格 *)
| MsgDone (path : str)                  (* 转换完成！已保存到: {path} *)
| MsgExcelReadError (e : exn)           (* 读取Excel文件时出错: {e} *)
| MsgWriteError (e : exn)               (* 写入文件时出错: {e} *)
| MsgCsvReadError (e : exn)             (* 读取CSV文件时出错: {e} *)
| MsgDelimiter (sep : str)              (* 使用分隔符: {repr(sep)} *)
| MsgEmptyFrame.                        (* 数据框为空 *)

(** The calls into codecs, chardet and pandas, as they are made. *)
Inductive call : Type :=
| CallDecode (encoding : str)
| CallTextRead (encoding : option str)
| CallChardet
| CallReadCsv (delimiter : str)
| CallReadExcel (sheet : option str)
| CallSheetNames
| CallExcelWriter (path : str).

Record World : Type := mkWorld {
  disk : str -> option bytes;             (* the readable files *)
  stdout : list message;                  (* what was printed *)
  written : list (str * str);             (* text files written: path, text *)
  workbooks : list (str * list (str * DataFrame));  (* workbooks written *)
  calls : list call                       (* library calls, oldest first *)
}.

Inductive outcome (A : Type) : Type :=
| Ret (a : A)
| Raise (e : exn).
Arguments Ret {A} a.
Arguments Raise {A} e.

Definition M (A : Type) : Type := World -> outcome A * World.

Definition ret {A} (a : A) : M A := fun w => (Ret a, w).

Definition raise {A} (e : exn) : M A := fun w => (Raise e, w).

Definition bind {A B} (c : M A) (k : A -> M B) : M B :=
  fun w =>
    match c w with
    | (Ret a, w') => k a w'
    | (Raise e, w') => (Raise e, w')
    end.

(** [try: c except <classes>: h]; what [c] did before raising stays done. *)
Definition try_except {A} (c : M A) (catches : exn -> bool) (h : exn -> M A) : M A :=
  fun w =>
    match c w with
    | (Ret a, w') => (Ret a, w')
    | (Raise e, w') => if catches e then h e w' else (Raise e, w')
    end.

Declare Scope py_scope.
Delimit Scope py_scope with py.
Notation "x <- c ;; k" := (bind c (fun x => k))
  (at level 61, c at next level, right associativity) : py_scope.
Notation "c ;; k" := (bind c (fun _ => k))
  (at level 61, right associativity) : py_scope.
Local Open Scope py_scope.

(** The world after more output, more calls, one more text file. *)
Definition printed (ms : list message) (w : World) : World :=
  mkWorld (disk w) (stdout w ++ ms) (written w) (workbooks w) (calls w).

Definition called (cs : list call) (w : World) : World :=
  mkWorld (disk w) (stdout w) (written w) (workbooks w) (calls w ++ cs).

Definition saved (path text : str) (w : World) : World :=
  mkWorld (disk w) (stdout w) (written w ++ [(path, text)]) (workbooks w) (calls w).

Definition print (m : message) : M unit := fun w => (Ret tt, printed [m] w).

Definition log (c : call) : M unit := fun w => (Ret tt, called [c] w).

(** A library answer: a value or the exception raised. *)
Definition lift {A} (r : exn + A) : M A :=
  match r with
  | inl e => raise e
  | inr a => ret a
  end.

(** [except Exception] and the bare [except]. *)
Definition any_exception (e : exn) : bool := true.

(** [except (UnicodeDecodeError, LookupError)] *)
Definition decode_or_lookup (e : exn) : bool :=
  match e with
  | UnicodeDecodeError | LookupError => true
  | _ => false
  end.

(** [except ImportError] *)
Definition import_error (e : exn) : bool :=
  match e with
  | ImportError => true
  | _ => false
  end.

(** [chardet.detect]'s answer: the keys the converter reads. *)
Record chardet_result : Type := mkChardet {
  cd_encoding : option str;
  cd_confidence : float
}.

(** The libraries the converter calls, as far as it depends on them. *)
Record Libraries : Type := mkLibraries {
  (* raw_data.decode(encoding, errors='strict'): the exception, if any *)
  codec_decode : str -> bytes -> option exn;
  (* open(path, 'r', encoding=encoding).read(n) on a file of these bytes *)
  text_read : option str -> bytes -> option nat -> exn + str;
  (* import chardet; chardet.detect *)
  chardet : option (bytes -> chardet_result);
  (* pd.read_csv(path, encoding=encoding, delimiter=delimiter) *)
  read_csv : option bytes -> option str -> str -> exn + DataFrame;
  (* pd.read_excel(path, sheet_name=sheet) *)
  read_excel : option bytes -> str -> exn + DataFrame;
  (* pd.ExcelFile(path).sheet_names *)
  sheet_names : option bytes -> exn + list str;
  (* with pd.ExcelWriter(path, engine='openpyxl'): to_excel per sheet *)
  excel_writer : str -> list (str * DataFrame) -> option exn;
  (* open(path, 'w', encoding='utf-8') and f.write(text): the exception, if any *)
  text_write : str -> str -> option exn;
  (* Path(path).with_suffix(suffix) *)
  with_suffix : str -> str -> str
}.

(** [SUPPORTED_ENCODINGS] *)
Definition SUPPORTED_ENCODINGS : list str :=
  [u "utf-8"; u "utf-8-sig";
   u "gbk"; u "gb2312"; u "gb18030";
   u "big5";
   u "shift_jis"; u "euc-jp";
   u "euc-kr"; u "cp949";
   u "latin-1"; u "iso-8859-1";
   u "cp1251"; u "cp1252"; u "koi8-r";
   u "ascii"].

(** [str(n)] for a non-negative integer *)
Definition str_of_nat (n : nat) : str := u (NilZero.string_of_uint (Nat.to_uint n)).

#[local] Set Warnings "-inexact-float".

Section Converter.

Context (L : Libraries).

(** [open(path, 'rb')] then [f.read()] *)
Definition open_rb (path : str) : M bytes :=
  fun w =>
    match disk w path with
    | Some b => (Ret b, w)
    | None => (Raise FileNotFoundError, w)
    end.

(** The body of the [try] in the candidate loop (lines 36-43). *)
Definition probe (path encoding : str) (sample_size : nat) : M str :=
  b <- open_rb path ;;
  let raw_data := firstn sample_size b in
  log (CallDecode encoding) ;;
  match codec_decode L encoding raw_data with
  | Some e => raise e
  | None =>
      b' <- open_rb path ;;
      log (CallTextRead (Some encoding)) ;;
      lift (text_read L (Some encoding) b' (Some 100%nat)) ;;
      ret encoding
  end.

(** The [for encoding in encodings_to_try] loop; [None] when it runs out. *)
Fixpoint try_encodings (encodings : list str) (path : str) (sample_size : nat)
  : M (option str) :=
  match encodings with
  | [] => ret None
  | encoding :: rest =>
      try_except
        (e <- probe path encoding sample_size ;; ret (Some e))
        decode_or_lookup
        (fun _ => try_encodings rest path sample_size)
  end.

(** Lines 48-56: [Some guess] when the block returns, [None] when control
    falls out of it. *)
Definition chardet_fallback (path : str) (sample_size : nat) : M (option (option str)) :=
  try_except
    (match chardet L with
     | None => raise ImportError
     | Some detect =>
         b <- open_rb path ;;
         let raw_data := firstn (sample_size * 4) b in
         log CallChardet ;;
         let result := detect raw_data in
         if PrimFloat.ltb 0.7%float (cd_confidence result)
         then ret (Some (cd_encoding result))
         else ret None
     end)
    import_error
    (fun _ => ret None).

Definition detect_encoding (path : str) (sample_size : nat) : M (option str) :=
  found <- try_encodings SUPPORTED_ENCODINGS path sample_size ;;
  match found with
  | Some encoding => ret (Some encoding)
  | None =>
      guess <- chardet_fallback path sample_size ;;
      match guess with
      | Some g => ret g
      | None => ret (Some (u "utf-8"))
      end
  end.

(** [with open(path, 'w', encoding='utf-8') as f: f.write(text)] *)
Definition write_text (path text : str) : M unit :=
  fun w =>
    match text_write L path text with
    | Some e => (Raise e, w)
    | None => (Ret tt, saved path text w)
    end.

(** [with open(path, 'r', encoding=encoding) as f: content = f.read()] *)
Definition read_text (path : str) (encoding : option str) : M str :=
  b <- open_rb path ;;
  log (CallTextRead encoding) ;;
  lift (text_read L encoding b None).

(** The sheet names of [md_to_excel]: [sheet_name] for the first table,
    [f"{sheet_name}_{i+1}"] after it. *)
Fixpoint name_sheets (sheet_name : str) (i : nat) (tbls : list DataFrame)
  : list (str * DataFrame) :=
  match tbls with
  | [] => []
  | t :: rest =>
      ((if (0 <? i)%nat then sheet_name ++ u "_" ++ str_of_nat (i + 1) else sheet_name), t)
      :: name_sheets sheet_name (S i) rest
  end.

(** The [with pd.ExcelWriter(...)] block (lines 87-90). *)
Definition write_workbook (path : str) (sheets : list (str * DataFrame)) : M unit :=
  log (CallExcelWriter path) ;;
  fun w =>
    match excel_writer L path sheets with
    | Some e => (Raise e, w)
    | None =>
        (Ret tt, mkWorld (disk w) (stdout w) (written w)
                         (workbooks w ++ [(path, sheets)]) (calls w))
    end.

Definition md_to_excel (md_file : str) (excel_file : option str) (sheet_name : str)
  : M bool :=
  let excel_file :=
    match excel_file with
    | None => with_suffix L md_file (u ".xlsx")
    | Some f => f
    end in
  encoding <- detect_encoding md_file 1024 ;;
  print (MsgDetected encoding) ;;
  read <- try_except
            (content <- read_text md_file encoding ;; ret (Some content))
            any_exception
            (fun e => print (MsgReadError e) ;; ret None) ;;
  match read with
  | None => ret false
  | Some content =>
      let tbls := _extract_markdown_tables content in
      if negb (truthy tbls) then
        print MsgNoTables ;; ret false
      else
        write_workbook excel_file (name_sheets sheet_name 0 tbls) ;;
        print (MsgDone excel_file) ;;
        ret true
  end.

(** The text of the [try] at lines 280-287 and 219-226. *)
Definition save_md (md_file md_content : str) : M bool :=
  try_except
    (write_text md_file md_content ;;
     print (MsgDone md_file) ;;
     ret true)
    any_exception
    (fun e => print (MsgWriteError e) ;; ret false).

Definition _dataframe_to_md (df : DataFrame) (md_file : str) : M bool :=
  if empty df then
    print MsgEmptyFrame ;; ret false
  else
    let df := fillna df in
    let md_content := md_table df in
    save_md md_file md_content.

(** What one turn of the loop at lines 195-216 appends to [md_content];
    [many] is [len(tables) > 1]. *)
Definition sheet_block (many : bool) (sheet : str * DataFrame) : str :=
  (if many then u "## " ++ fst sheet ++ [NEWLINE; NEWLINE] else [])
  ++ (let df := fillna (snd sheet) in
      if negb (empty df) then md_table df else [])
  ++ [NEWLINE].

(** [pd.read_excel] for each name, in order (lines 185-187). *)
Fixpoint read_sheets (b : option bytes) (names : list str) : M (list (str * DataFrame)) :=
  match names with
  | [] => ret []
  | sheet :: rest =>
      log (CallReadExcel (Some sheet)) ;;
      df <- lift (read_excel L b sheet) ;;
      more <- read_sheets b rest ;;
      ret ((sheet, df) :: more)
  end.

(** Lines 178-187: one named sheet when [sheet_name] is truthy, every
    sheet of the workbook otherwise. *)
Definition load_sheets (excel_file : str) (sheet_name : option str)
  : M (list (str * DataFrame)) :=
  fun w =>
    let b := disk w excel_file in
    match sheet_name with
    | Some (c :: s) =>
        (log (CallReadExcel (Some (c :: s))) ;;
         df <- lift (read_excel L b (c :: s)) ;;
         ret [(c :: s, df)]) w
    | _ =>
        (log CallSheetNames ;;
         names <- lift (sheet_names L b) ;;
         read_sheets b names) w
    end.

Definition excel_to_md (excel_file : str) (md_file : option str) (sheet_name : option str)
  : M bool :=
  let md_file :=
    match md_file with
    | None => with_suffix L excel_file (u ".md")
    | Some f => f
    end in
  read <- try_except
            (tbls <- load_sheets excel_file sheet_name ;; ret (Some tbls))
            any_exception
            (fun e => print (MsgExcelReadError e) ;; ret None) ;;
  match read with
  | None => ret false
  | Some tbls =>
      let many := (1 <? length tbls)%nat in
      let md_content := concat (map (sheet_block many) tbls) in
      save_md md_file md_content
  end.

(** [pd.read_csv(csv_file, encoding=encoding, delimiter=delimiter)] *)
Definition pd_read_csv (csv_file : str) (encoding : option str) (delimiter : str)
  : M DataFrame :=
  log (CallReadCsv delimiter) ;;
  fun w => lift (read_csv L (disk w csv_file) encoding delimiter) w.

(** The [for sep in [';', '\t', '|']] loop (lines 245-253); [None] is its
    [else] branch. *)
Fixpoint retry_delimiters (csv_file : str) (encoding : option str) (seps : list str)
  : M (option DataFrame) :=
  match seps with
  | [] => ret None
  | sep :: rest =>
      try_except
        (df <- pd_read_csv csv_file encoding sep ;;
         print (MsgDelimiter sep) ;;
         ret (Some df))
        any_exception
        (fun _ => retry_delimiters csv_file encoding rest)
  end.

Definition FALLBACK_DELIMITERS : list str := [u ";"; [9]; u "|"].

Definition convert_csv_to_md (csv_file : str) (md_file : option str) (delimiter : str)
  : M bool :=
  let md_file :=
    match md_file with
    | None => with_suffix L csv_file (u ".md")
    | Some f => f
    end in
  encoding <- detect_encoding csv_file 1024 ;;
  print (MsgDetected encoding) ;;
  read <- try_except
            (df <- pd_read_csv csv_file encoding delimiter ;; ret (Some df))
            any_exception
            (fun e =>
               print (MsgCsvReadError e) ;;
               retry_delimiters csv_file encoding FALLBACK_DELIMITERS) ;;
  match read with
  | None => ret false
  | Some df => _dataframe_to_md df md_file
  end.

End Converter.

(** ** A small stand-in for the libraries

    Enough of codecs, pandas and pathlib to run the converter on concrete
    files: a strict UTF-8 decoder, Latin-1 and ASCII; the other names of
    [SUPPORTED_ENCODINGS] are unknown to it.  [chardet] is not installed. *)

Module Double.

Fixpoint str_eqb (a b : str) : bool :=
  match a, b with
  | [], [] => true
  | x :: a', y :: b' => (x =? y) && str_eqb a' b'
  | _, _ => false
  end.

Definition cont (c : N) : bool := (128 <=? c) && (c <=? 191).

(** Strict UTF-8 (RFC 3629): shortest forms only, no surrogates, at most
    U+10FFFF. *)
Fixpoint utf8_decode (b : list N) : option str :=
  match b with
  | [] => Some []
  | c :: r =>
      if c <? 128 then option_map (cons c) (utf8_decode r)
      else if (194 <=? c) && (c <=? 223) then
        match r with
        | c1 :: r1 =>
            if cont c1
            then option_map (cons ((c - 192) * 64 + (c1 - 128))) (utf8_decode r1)
            else None
        | _ => None
        end
      else if (224 <=? c) && (c <=? 239) then
        match r with
        | c1 :: c2 :: r2 =>
            if cont c1 && cont c2
               && (negb (c =? 224) || (160 <=? c1))
               && (negb (c =? 237) || (c1 <=? 159))
            then option_map
                   (cons ((c - 224) * 4096 + (c1 - 128) * 64 + (c2 - 128)))
                   (utf8_decode r2)
            else None
        | _ => None
        end
      else if (240 <=? c) && (c <=? 244) then
        match r with
        | c1 :: c2 :: c3 :: r3 =>
            if cont c1 && cont c2 && cont c3
               && (negb (c =? 240) || (144 <=? c1))
               && (negb (c =? 244) || (c1 <=? 143))
            then option_map
                   (cons ((c - 240) * 262144 + (c1 - 128) * 4096
                          + (c2 - 128) * 64 + (c3 - 128)))
                   (utf8_decode r3)
            else None
        | _ => None
        end
      else None
  end.

(** [known] tells which codec names this build of Python has. *)
Definition decode (known : str -> bool) (encoding : str) (b : bytes) : exn + str :=
  let raw := map Byte.to_N b in
  if negb (known encoding) then inl LookupError
  else if str_eqb encoding (u "utf-8") then
    match utf8_decode raw with
    | Some t => inr t
    | None => inl UnicodeDecodeError
    end
  else if str_eqb encoding (u "latin-1") || str_eqb encoding (u "iso-8859-1") then
    inr raw
  else if str_eqb encoding (u "ascii") then
    if forallb (fun c => c <? 128) raw then inr raw else inl UnicodeDecodeError
  else inl LookupError.

(** Text mode reads with universal newlines. *)
Fixpoint universal_newlines (t : str) : str :=
  match t with
  | [] => []
  | 13 :: ((10 :: _) as r) => universal_newlines r
  | 13 :: r => 10 :: universal_newlines r
  | c :: r => c :: universal_newlines r
  end.

Definition open_text (known : str -> bool) (encoding : option str) (b : bytes)
  (limit : option nat) : exn + str :=
  match decode known (match encoding with Some e => e | None => u "utf-8" end) b with
  | inl e => inl e
  | inr t =>
      let t := universal_newlines t in
      inr (match limit with Some n => firstn n t | None => t end)
  end.

(** A reader that splits lines and fields; it raises on an empty file and
    on a data line with more fields than the header line, and fills short
    lines and empty fields with NaN. *)
Definition csv_row (width : nat) (fields : list str) : list cell :=
  map (fun f : str => match f with [] => None | _ => Some f end) fields
  ++ repeat None (width - length fields).

Definition parse_csv (known : str -> bool) (b : option bytes) (encoding : option str)
  (delimiter : str) : exn + DataFrame :=
  match b, delimiter with
  | None, _ => inl FileNotFoundError
  | Some raw, [d] =>
      match open_text known encoding raw None with
      | inl e => inl e
      | inr t =>
          match filter truthy (split NEWLINE t) with
          | [] => inl LibraryError
          | header :: data =>
              let names := split d header in
              let fields := map (split d) data in
              if existsb (fun r => (length names <? length r)%nat) fields
              then inl LibraryError
              else inr (mkDataFrame names (map (csv_row (length names)) fields))
          end
      end
  | Some _, _ => inl LibraryError
  end.

(** [Path(path).with_suffix(suffix)]: the text after the last dot of the
    path is replaced. *)
Fixpoint drop_suffix (rev_path : str) : option str :=
  match rev_path with
  | [] => None
  | c :: r => if c =? 46 then Some r else drop_suffix r
  end.

Definition replace_suffix (path suffix : str) : str :=
  match drop_suffix (rev path) with
  | Some r => rev r ++ suffix
  | None => path ++ suffix
  end.

(** The stand-in: the codecs it knows, the detector it has, and whether
    the medium takes writes. *)
Definition make (known : str -> bool) (detector : option (bytes -> chardet_result))
  (writable : bool) : Libraries := {|
  codec_decode := fun encoding b =>
    match decode known encoding b with inl e => Some e | inr _ => None end;
  text_read := open_text known;
  chardet := detector;
  read_csv := parse_csv known;
  read_excel := fun _ _ => inl LibraryError;
  sheet_names := fun _ => inl LibraryError;
  excel_writer := fun _ _ => if writable then None else Some OSError;
  text_write := fun _ _ => if writable then None else Some OSError;
  with_suffix := replace_suffix
|}.

(** Every codec of the stand-in, no chardet, a writable medium. *)
Definition libs : Libraries := make (fun _ => true) None true.

(** The same over a medium that refuses every write. *)
Definition read_only_libs : Libraries := make (fun _ => true) None false.

(** A build that has the [utf-8] codec only, with a given detector. *)
Definition utf8_only (detector : option (bytes -> chardet_result)) : Libraries :=
  make (str_eqb (u "utf-8")) detector true.

(** Every codec of the stand-in, over a medium whose text-mode reads
    fail with an [OSError]. *)
Definition failing_reads : Libraries := {|
  codec_decode := codec_decode libs;
  text_read := fun _ _ _ => inl OSError;
  chardet := None;
  read_csv := parse_csv (fun _ => true);
  read_excel := fun _ _ => inl LibraryError;
  sheet_names := fun _ => inl LibraryError;
  excel_writer := fun _ _ => None;
  text_write := fun _ _ => None;
  with_suffix := replace_suffix
|}.

(** A workbook reader over two sheets, [Prices] and [Empty]. *)
Definition two_sheets : Libraries := {|
  codec_decode := codec_decode libs;
  text_read := text_read libs;
  chardet := None;
  read_csv := parse_csv (fun _ => true);
  read_excel := fun _ sheet =>
    if str_eqb sheet (u "Prices")
    then inr (mkDataFrame [u "item"; u "eur"] [[Some (u "tea"); None]])
    else if str_eqb sheet (u "Empty") then inr (mkDataFrame [u "x"] [])
    else inl LibraryError;
  sheet_names := fun _ => inr [u "Prices"; u "Empty"];
  excel_writer := fun _ _ => None;
  text_write := fun _ _ => None;
  with_suffix := replace_suffix
|}.

(** The ASCII bytes of a literal. *)
Fixpoint b (s : string) : bytes :=
  match s with
  | EmptyString => []
  | String a s' => byte_of_ascii a :: b s'
  end.

(** A disk holding one file. *)
Definition one_file (path : str) (content : bytes) : World :=
  mkWorld (fun p => if str_eqb p path then Some content else None) [] [] [] [].

(** A disk holding nothing. *)
Definition no_files : World := mkWorld (fun _ => None) [] [] [] [].

End Double.

(** ** Vocabulary of the statements *)

(** A rendered row without its line end. *)
Definition md_line (cells : list str) : str :=
  u "| " ++ join (u " | ") cells ++ u " |".

(** One cell of a rendered row, with the pipe that closes it. *)
Definition pad_pipe (c : str) : str := SPACE :: c ++ [SPACE; PIPE].

(** A frame that [_parse_table_lines] returns for some block. *)
Definition parsed (df : DataFrame) : Prop :=
  exists block, _parse_table_lines block = Some df.

(** The guard of the data loop (line 158). *)
Definition candidate (line : str) : bool :=
  truthy (strip line) && contains PIPE line.

(** Text without a pipe and without a line feed. *)
Definition plain (s : str) : bool :=
  negb (contains PIPE s) && negb (contains NEWLINE s).

(** The frame with every label and every cell text stripped. *)
Definition trimmed (df : DataFrame) : DataFrame :=
  DataFrame_of (map (map (fun c => strip (cell_text c))) (rows df))
               (map strip (columns df)).

(** What one pass of the candidate loop does on a file of bytes [b]: the
    answer of the two decoding checks, and the library calls made. *)
Definition probe_result (L : Libraries) (b : bytes) (sample_size : nat) (encoding : str)
  : exn + str :=
  match codec_decode L encoding (firstn sample_size b) with
  | Some e => inl e
  | None => text_read L (Some encoding) b (Some 100%nat)
  end.

Definition probe_calls (L : Libraries) (b : bytes) (sample_size : nat) (encoding : str)
  : list call :=
  CallDecode encoding ::
  match codec_decode L encoding (firstn sample_size b) with
  | Some _ => []
  | None => [CallTextRead (Some encoding)]
  end.

(** The candidate passes both checks. *)
Definition passes (L : Libraries) (b : bytes) (sample_size : nat) (encoding : str) : bool :=
  match probe_result L b sample_size encoding with
  | inr _ => true
  | inl _ => false
  end.

(** The candidate fails a check with a decoding or a lookup error. *)
Definition skipped (L : Libraries) (b : bytes) (sample_size : nat) (encoding : str) : bool :=
  match probe_result L b sample_size encoding with
  | inr _ => false
  | inl e => decode_or_lookup e
  end.

Definition is_ascii (x : byte) : bool := Byte.to_N x <? 128.

(** The codec named [encoding] decodes every run of 7-bit bytes. *)
Definition ascii_compatible (L : Libraries) (encoding : str) : Prop :=
  forall raw, forallb is_ascii raw = true ->
    codec_decode L encoding raw = None
    /\ forall limit, exists t, text_read L (Some encoding) raw limit = inr t.

(** The default name of the Markdown file. *)
Definition md_path (L : Libraries) (source : str) (md_file : option str) : str :=
  match md_file with
  | None => with_suffix L source (u ".md")
  | Some f => f
  end.

(** The test of line 116, on a line as [split] gives it. *)
Definition table_line (line0 : str) : bool :=
  let line := rstrip line0 in
  contains PIPE line && startswith PIPE (strip line).

(** Lines 130-135: the last block, if one is open. *)
Definition finish (st : scan) : list DataFrame :=
  if in_table st && truthy (current_table st)
  then flush (tables st) (current_table st)
  else tables st.

(** [_extract_markdown_tables] on the lines of the content. *)
Definition extract_lines (lines : list str) : list DataFrame :=
  finish (fold_left scan_step lines (mkScan [] false [])).

(** How often a character occurs. *)
Definition count_char (c : N) (s : str) : nat := length (filter (N.eqb c) s).

(** Text as extraction leaves it: stripped, without a pipe and without a
    line feed. *)
Definition tidy (s : str) : Prop :=
  strip s = s /\ contains PIPE s = false /\ contains NEWLINE s = false.

(** The candidate loop as a function of the bytes: the first candidate
    that is not skipped decides. *)
Fixpoint loop_result (L : Libraries) (b : bytes) (sample_size : nat)
  (encodings : list str) : outcome (option str) :=
  match encodings with
  | [] => Ret None
  | encoding :: rest =>
      match probe_result L b sample_size encoding with
      | inr _ => Ret (Some encoding)
      | inl e =>
          if decode_or_lookup e then loop_result L b sample_size rest else Raise e
      end
  end.

(** The library calls of the candidate loop. *)
Fixpoint loop_calls (L : Libraries) (b : bytes) (sample_size : nat)
  (encodings : list str) : list call :=
  match encodings with
  | [] => []
  | encoding :: rest =>
      probe_calls L b sample_size encoding
      ++ (if skipped L b sample_size encoding
          then loop_calls L b sample_size rest
          else [])
  end.

(** The name [md_to_excel] gives the sheet of the table at index [i]. *)
Definition sheet_name_at (sheet_name : str) (i : nat) : str :=
  if (0 <? i)%nat then sheet_name ++ u "_" ++ str_of_nat (i + 1) else sheet_name.

(** The world after one more workbook. *)
Definition booked (path : str) (sheets : list (str * DataFrame)) (w : World) : World :=
  mkWorld (disk w) (stdout w) (written w) (workbooks w ++ [(path, sheets)]) (calls w).

(** A frame the renderer and the parser agree on: two columns or more,
    rows as wide as the header, no pipe and no line feed in any text. *)
Definition renderable (df : DataFrame) : Prop :=
  (2 <= length (columns df))%nat
  /\ Forall (fun row => length row = length (columns df)) (rows df)
  /\ forallb plain (columns df) = true
  /\ forallb (fun row => forallb (fun c => plain (cell_text c)) row) (rows df) = true.

(** A frame parsed from a block whose lines all satisfy [Q]. *)
Definition parsed_from (Q : str -> Prop) (df : DataFrame) : Prop :=
  exists block, _parse_table_lines block = Some df /\ Forall Q block.

(** The lines [excel_to_md] writes for one sheet (lines 196-216). *)
Definition sheet_lines (many : bool) (sheet : str * DataFrame) : list str :=
  (if many then [u "## " ++ fst sheet; []] else [])
  ++ (let df := fillna (snd sheet) in
      if negb (empty df)
      then md_line (columns df)
           :: md_line (repeat (u "---") (length (columns df)))
           :: map (fun row => md_line (map cell_text row)) (rows df)
      else [])
  ++ [[]].

Example isspace_samples :
  map isspace [9; 10; 13; 28; 31; 32; 33; 45; 58; 124; 133; 160; 12288]
  = [true; true; true; true; true; true; false; false; false; false; true; true; true].
Proof. reflexivity. Qed.

Example split_sample : split PIPE (u "| a | b |") = [u ""; u " a "; u " b "; u ""].
Proof. reflexivity. Qed.

Example extract_sample :
  _extract_markdown_tables (u "| A | B |" ++ [NEWLINE] ++ u "|---|---|" ++ [NEWLINE] ++ u "| 1 | 2 |")
  = [DataFrame_of [[u "1"; u "2"]] [u "A"; u "B"]].
Proof. vm_compute. reflexivity. Qed.

(** * Properties *)

(** ** Regular expressions: the matcher decides prefix membership *)

Module ReFacts.
Import Re.

Lemma lang_nil_nullable r s : lang r s -> s = [] -> nullable r = true.
Proof.
  induction 1; intros E; simpl; try reflexivity; try discriminate.
  - apply app_eq_nil in E as [-> ->]. now rewrite IHlang1, IHlang2.
  - now rewrite IHlang.
  - rewrite IHlang by assumption. now rewrite orb_true_r.
Qed.

Lemma nullable_lang r : nullable r = true <-> lang r [].
Proof.
  split.
  - induction r; simpl; intros H; try discriminate.
    + constructor.
    + apply andb_prop in H as [Ha Hb].
      change (@nil N) with (@nil N ++ []). constructor; auto.
    + apply orb_prop in H as [H | H]; [apply LAltL | apply LAltR]; auto.
    + constructor.
  - intros H. now apply lang_nil_nullable with (s := []).
Qed.

Lemma deriv_sound c r : forall s, lang (deriv c r) s -> lang r (c :: s).
Proof.
  induction r; simpl; intros s H.
  - inversion H.
  - inversion H.
  - destruct (N.eqb_spec c n) as [-> | _]; inversion H; subst. constructor.
  - destruct (b c) eqn:E; inversion H; subst. now constructor.
  - destruct (nullable r1) eqn:E.
    + inversion H; subst.
      * match goal with X : lang (Seq _ _) _ |- _ => inversion X; subst end.
        change (c :: s0 ++ t) with ((c :: s0) ++ t). constructor; auto.
      * change (c :: s) with ([] ++ c :: s). constructor; auto.
        now apply nullable_lang.
    + inversion H; subst.
      change (c :: s0 ++ t) with ((c :: s0) ++ t). constructor; auto.
  - inversion H; subst; [apply LAltL | apply LAltR]; auto.
  - inversion H; subst.
    change (c :: s0 ++ t) with ((c :: s0) ++ t). constructor; auto.
Qed.

Lemma deriv_complete c r w : lang r w -> forall s, w = c :: s -> lang (deriv c r) s.
Proof.
  induction 1; intros s0 E; simpl.
  - discriminate.
  - injection E as -> <-. rewrite N.eqb_refl. constructor.
  - injection E as -> <-. rewrite H. constructor.
  - destruct s as [| x s'].
    + simpl in E. subst t.
      rewrite (lang_nil_nullable a [] H eq_refl).
      apply LAltR. now apply IHlang2.
    + simpl in E. injection E as -> <-.
      assert (Hs : lang (Seq (deriv c a) b) (s' ++ t))
        by (constructor; [now apply IHlang1 | assumption]).
      destruct (nullable a); [now apply LAltL | assumption].
  - apply LAltL. now apply IHlang.
  - apply LAltR. now apply IHlang.
  - discriminate.
  - destruct s as [| x s'].
    + simpl in E. now apply IHlang2.
    + simpl in E. injection E as -> <-.
      constructor; [now apply IHlang1 | assumption].
Qed.

Lemma deriv_lang c r s : lang (deriv c r) s <-> lang r (c :: s).
Proof.
  split; [apply deriv_sound | intros H; now apply deriv_complete with (w := c :: s)].
Qed.

(** [re.match] succeeds exactly when a prefix of the subject is in the
    language of the pattern. *)
Lemma re_match_lang s : forall r,
  re_match r s = true <-> exists p q, s = p ++ q /\ lang r p.
Proof.
  induction s as [| c s IH]; intros r; simpl.
  - rewrite orb_false_r, nullable_lang. split.
    + intros H. now exists [], [].
    + intros (p & q & E & H). symmetry in E. apply app_eq_nil in E as [-> _].
      assumption.
  - split.
    + intros H. apply orb_prop in H as [H | H].
      * exists [], (c :: s). split; [reflexivity | now apply nullable_lang].
      * apply IH in H as (p & q & -> & H).
        exists (c :: p), q. split; [reflexivity | now apply deriv_lang].
    + intros (p & q & E & H). destruct p as [| x p].
      * apply nullable_lang in H. now rewrite H.
      * simpl in E. injection E as <- ->.
        apply orb_true_intro. right. apply IH.
        exists p, q. split; [reflexivity | now apply deriv_lang].
Qed.

Lemma lang_star_cls p s : lang (Star (Cls p)) s <-> forallb p s = true.
Proof.
  split.
  - remember (Star (Cls p)) as r eqn:E. induction 1; try discriminate.
    + reflexivity.
    + injection E as ->. inversion H as [| | ? ? Hc | | | | |]; subst. simpl.
      rewrite Hc. simpl. now apply IHlang2.
  - induction s as [| c s IH]; simpl; intros H.
    + constructor.
    + apply andb_prop in H as [Hc Hs].
      change (c :: s) with ([c] ++ s). constructor; [now constructor | auto].
Qed.

Lemma lang_plus_cls p s :
  lang (Plus (Cls p)) s <-> s <> [] /\ forallb p s = true.
Proof.
  unfold Plus. split.
  - intros H. inversion H as [| | | ? ? ? ? Ha Hb | | | |]; subst.
    inversion Ha as [| | ? ? Hc | | | | |]; subst.
    apply lang_star_cls in Hb. simpl. rewrite Hc. split; [discriminate | assumption].
  - intros [Hne H]. destruct s as [| c s]; [contradiction |].
    simpl in H. apply andb_prop in H as [Hc Hs].
    change (c :: s) with ([c] ++ s).
    constructor; [now constructor | now apply lang_star_cls].
Qed.

End ReFacts.

(** ** Strings *)

Section StringFacts.

Lemma split_nonempty sep s : split sep s <> [].
Proof.
  destruct s as [| c s]; simpl; [discriminate |].
  destruct (c =? sep); [discriminate |].
  destruct (split sep s); discriminate.
Qed.

(** Splitting distributes over a separator in the middle. *)
Lemma split_app sep a : forall b,
  split sep (a ++ sep :: b) = split sep a ++ split sep b.
Proof.
  induction a as [| c a IH]; intros b; simpl.
  - now rewrite N.eqb_refl.
  - destruct (c =? sep); rewrite IH; [reflexivity |].
    destruct (split sep a) eqn:E; [now apply split_nonempty in E | reflexivity].
Qed.

Lemma split_cons_sep sep s : split sep (sep :: s) = [] :: split sep s.
Proof. simpl. now rewrite N.eqb_refl. Qed.

Lemma split_no_sep sep s : contains sep s = false -> split sep s = [s].
Proof.
  unfold contains. induction s as [| c s IH]; simpl; intros H; [reflexivity |].
  apply orb_false_elim in H as [Hc Hs].
  rewrite N.eqb_sym, Hc, (IH Hs). reflexivity.
Qed.

Lemma contains_app c a b : contains c (a ++ b) = contains c a || contains c b.
Proof. apply existsb_app. Qed.

Lemma contains_join c sep parts :
  contains c sep = false -> forallb (fun p => negb (contains c p)) parts = true ->
  contains c (join sep parts) = false.
Proof.
  intros Hsep. induction parts as [| p ps IH]; intros H; [reflexivity |].
  simpl in H. apply andb_prop in H as [Hp Hps]. apply negb_true_iff in Hp.
  destruct ps as [| q ps]; [exact Hp |].
  change (join sep (p :: q :: ps)) with (p ++ sep ++ join sep (q :: ps)).
  rewrite !contains_app, Hp, Hsep, (IH Hps). reflexivity.
Qed.

Lemma rstrip_snoc_keep s c : isspace c = false -> rstrip (s ++ [c]) = s ++ [c].
Proof.
  intros H. unfold rstrip. rewrite rev_unit. simpl. rewrite H.
  simpl. now rewrite rev_involutive.
Qed.

Lemma rstrip_snoc_drop s c : isspace c = true -> rstrip (s ++ [c]) = rstrip s.
Proof. intros H. unfold rstrip. rewrite rev_unit. simpl. now rewrite H. Qed.

Lemma lstrip_snoc s c :
  lstrip (s ++ [c]) = lstrip s ++ [c] \/ (lstrip s = [] /\ lstrip (s ++ [c]) = lstrip [c]).
Proof.
  induction s as [| d s IH]; simpl.
  - right. split; reflexivity.
  - destruct (isspace d); [exact IH | now left].
Qed.

(** Padding a cell with one space on each side does not change what
    [strip] makes of it. *)
Lemma strip_pad s : strip (SPACE :: s ++ [SPACE]) = strip s.
Proof.
  unfold strip. change (lstrip (SPACE :: s ++ [SPACE])) with (lstrip (s ++ [SPACE])).
  destruct (lstrip_snoc s SPACE) as [E | [E1 E2]].
  - rewrite E. now apply rstrip_snoc_drop.
  - rewrite E1, E2. reflexivity.
Qed.

Lemma removelast_snoc {A} (l : list A) x : removelast (l ++ [x]) = l.
Proof. apply removelast_last. Qed.

(** The fields before the first pipe and after the last one never reach
    the cells. *)
Lemma split_cells_outer head mid tail :
  contains PIPE head = false -> contains PIPE tail = false ->
  split_cells (head ++ PIPE :: mid ++ PIPE :: tail) = map strip (split PIPE mid).
Proof.
  intros Hh Ht. unfold split_cells, slice_1_m1.
  rewrite split_app, (split_no_sep _ _ Hh), split_app, (split_no_sep _ _ Ht).
  simpl. now rewrite removelast_snoc.
Qed.

Lemma split_cells_one_pipe head tail :
  contains PIPE head = false -> contains PIPE tail = false ->
  split_cells (head ++ PIPE :: tail) = [].
Proof.
  intros Hh Ht. unfold split_cells, slice_1_m1.
  rewrite split_app, (split_no_sep _ _ Hh), (split_no_sep _ _ Ht). reflexivity.
Qed.

End StringFacts.

(** ** The separator pattern *)

(** The pattern accepts a line exactly when the line opens with two cells
    of whitespace, colons and hyphens, each non-empty and each closed by a
    pipe; what follows the third pipe is not looked at. *)
Lemma separator_match s :
  Re.re_match separator_re s = true <->
  exists a b rest,
    s = PIPE :: a ++ PIPE :: b ++ PIPE :: rest
    /\ a <> [] /\ b <> []
    /\ forallb sep_class a = true /\ forallb sep_class b = true.
Proof.
  rewrite ReFacts.re_match_lang. unfold separator_re. split.
  - intros (p & q & -> & H).
    inversion H as [| | | ? ? ? t1 H1 H2 | | | |]; subst. inversion H1; subst.
    inversion H2 as [| | | ? ? a t2 Ha H3 | | | |]; subst.
    inversion H3 as [| | | ? ? ? t3 H4 H5 | | | |]; subst. inversion H4; subst.
    inversion H5 as [| | | ? ? b0 t4 Hb H6 | | | |]; subst. inversion H6; subst.
    apply ReFacts.lang_plus_cls in Ha as [Hane Ha].
    apply ReFacts.lang_plus_cls in Hb as [Hbne Hb].
    exists a, b0, q. repeat split; try assumption.
    simpl. rewrite <- !app_assoc. simpl. rewrite <- !app_assoc. reflexivity.
  - intros (a & b0 & rest & -> & Hane & Hbne & Ha & Hb).
    exists ([PIPE] ++ a ++ [PIPE] ++ b0 ++ [PIPE]), rest. split.
    + simpl. rewrite <- !app_assoc. simpl. rewrite <- !app_assoc. reflexivity.
    + repeat constructor; apply ReFacts.lang_plus_cls; now split.
Qed.

(** A line with a single cell between its pipes is never taken for a
    separator. *)
Lemma separator_needs_two_cells a :
  contains PIPE a = false -> Re.re_match separator_re (PIPE :: a ++ [PIPE]) = false.
Proof.
  intros Ha. apply not_true_is_false. intros H.
  apply separator_match in H as (x & y & rest & E & _).
  injection E as E.
  assert (C : contains PIPE (a ++ [PIPE]) = contains PIPE (x ++ PIPE :: y ++ PIPE :: rest))
    by now rewrite E.
  assert (S : split PIPE (a ++ [PIPE]) = split PIPE (x ++ PIPE :: y ++ PIPE :: rest))
    by now rewrite E.
  rewrite !split_app, (split_no_sep _ _ Ha) in S. simpl in S.
  apply (f_equal (@length str)) in S. rewrite !length_app in S. simpl in S.
  pose proof (split_nonempty PIPE x). pose proof (split_nonempty PIPE y).
  pose proof (split_nonempty PIPE rest).
  destruct (split PIPE x), (split PIPE y), (split PIPE rest); simpl in S; try contradiction; lia.
Qed.

(** ** Rendered lines *)

Section Rendering.

Lemma md_row_line cells : md_row cells = md_line cells ++ [NEWLINE].
Proof. unfold md_row, md_line. now rewrite <- !app_assoc. Qed.

Lemma pad_join cells :
  cells <> [] ->
  [SPACE] ++ join (u " | ") cells ++ u " |" = concat (map pad_pipe cells).
Proof.
  induction cells as [| p ps IH]; intros Hne; [contradiction |].
  destruct ps as [| q ps].
  - simpl. now rewrite app_nil_r.
  - change (join (u " | ") (p :: q :: ps))
      with (p ++ u " | " ++ join (u " | ") (q :: ps)).
    change (concat (map pad_pipe (p :: q :: ps)))
      with (pad_pipe p ++ concat (map pad_pipe (q :: ps))).
    rewrite <- IH by discriminate. unfold pad_pipe. simpl.
    rewrite <- !app_assoc. reflexivity.
Qed.

Lemma md_line_concat cells :
  cells <> [] -> md_line cells = PIPE :: concat (map pad_pipe cells).
Proof. intros Hne. unfold md_line. now rewrite <- (pad_join cells Hne). Qed.

Lemma split_padded cells :
  forallb (fun c => negb (contains PIPE c)) cells = true ->
  split PIPE (concat (map pad_pipe cells))
  = map (fun c => SPACE :: c ++ [SPACE]) cells ++ [[]].
Proof.
  induction cells as [| c cs IH]; intros H; [reflexivity |].
  simpl in H. apply andb_prop in H as [Hc Hcs]. apply negb_true_iff in Hc.
  change (concat (map pad_pipe (c :: cs)))
    with (pad_pipe c ++ concat (map pad_pipe cs)).
  assert (E : forall X, pad_pipe c ++ X = (SPACE :: c ++ [SPACE]) ++ PIPE :: X).
  { intros X. unfold pad_pipe. simpl. rewrite <- !app_assoc. reflexivity. }
  rewrite E, split_app, (IH Hcs), split_no_sep; [reflexivity |].
  change (SPACE :: c ++ [SPACE]) with ([SPACE] ++ c ++ [SPACE]).
  rewrite !contains_app, Hc. reflexivity.
Qed.

(** Reading back a rendered row gives its cells, stripped. *)
Lemma split_cells_md_line cells :
  cells <> [] ->
  forallb (fun c => negb (contains PIPE c)) cells = true ->
  split_cells (md_line cells) = map strip cells.
Proof.
  intros Hne H. unfold split_cells, slice_1_m1.
  rewrite (md_line_concat _ Hne), split_cons_sep.
  cbn [tl]. rewrite (split_padded _ H), removelast_snoc, map_map.
  apply map_ext. intros c. apply strip_pad.
Qed.

(** A rendered row opens and closes with a pipe. *)
Lemma md_line_shape cells : exists body, md_line cells = PIPE :: body ++ [PIPE].
Proof.
  exists (SPACE :: join (u " | ") cells ++ [SPACE]).
  unfold md_line. simpl. rewrite <- !app_assoc. reflexivity.
Qed.

Lemma md_line_no_newline cells :
  forallb (fun c => negb (contains NEWLINE c)) cells = true ->
  contains NEWLINE (md_line cells) = false.
Proof.
  intros H. unfold md_line.
  rewrite !contains_app, (contains_join NEWLINE (u " | ") cells); auto.
Qed.

(** The separator row of a frame with two columns or more matches the
    separator pattern. *)
Lemma separator_row_matches n :
  (2 <= n)%nat -> Re.re_match separator_re (md_line (repeat (u "---") n)) = true.
Proof.
  intros Hn. destruct n as [| [| n]]; try lia.
  rewrite md_line_concat by discriminate.
  apply separator_match.
  exists (u " --- "), (u " --- "), (concat (map pad_pipe (repeat (u "---") n))).
  repeat split; try discriminate; reflexivity.
Qed.

(** Splitting rendered text on line feeds gives back the lines, and one
    empty string after the last line feed. *)
Lemma split_lines lines :
  forallb (fun l => negb (contains NEWLINE l)) lines = true ->
  split NEWLINE (concat (map (fun l => l ++ [NEWLINE]) lines)) = lines ++ [[]].
Proof.
  induction lines as [| l ls IH]; intros H; [reflexivity |].
  simpl in H. apply andb_prop in H as [Hl Hls]. apply negb_true_iff in Hl.
  simpl. rewrite <- app_assoc. simpl.
  rewrite split_app, (split_no_sep _ _ Hl), (IH Hls). reflexivity.
Qed.

Lemma md_table_lines df :
  md_table df
  = concat (map (fun l => l ++ [NEWLINE])
              (md_line (columns df)
               :: md_line (repeat (u "---") (length (columns df)))
               :: map (fun row => md_line (map cell_text row)) (rows df))).
Proof.
  unfold md_table. cbn [map concat]. rewrite map_map, !md_row_line.
  do 3 f_equal. apply map_ext. intros row. apply md_row_line.
Qed.

Lemma md_table_fillna df : md_table (fillna df) = md_table df.
Proof.
  unfold md_table, fillna. cbn [columns rows]. rewrite map_map.
  do 3 f_equal. apply map_ext. intros row. f_equal. rewrite map_map.
  apply map_ext. now intros [s |].
Qed.

End Rendering.

(** ** Extraction *)

Section Extraction.

(** The data loop keeps, in order, the cells of the candidate lines that
    are as wide as the header. *)
Lemma data_loop headers ls : forall acc,
  fold_left (data_step headers) ls acc
  = acc ++ filter (fun cells => (length cells =? length headers)%nat)
             (map split_cells (filter candidate ls)).
Proof.
  induction ls as [| l ls IH]; intros acc; simpl.
  - now rewrite app_nil_r.
  - rewrite IH. unfold data_step, candidate.
    destruct (truthy (strip l) && contains PIPE l); [| reflexivity].
    simpl. destruct (length (split_cells l) =? length headers)%nat.
    + now rewrite <- app_assoc.
    + reflexivity.
Qed.

Lemma parse_table_lines_some lines df :
  _parse_table_lines lines = Some df ->
  columns df = split_cells (nth 0 lines [])
  /\ rows df
     = map (map (@Some str))
         (filter (fun cells => (length cells =? length (columns df))%nat)
            (map split_cells (filter candidate (data_lines_of lines)))).
Proof.
  unfold _parse_table_lines.
  destruct (length lines <? 2)%nat; [discriminate |].
  destruct (negb (truthy (split_cells (nth 0 lines [])))); [discriminate |].
  intros H. injection H as <-. unfold DataFrame_of. simpl.
  now rewrite data_loop.
Qed.

Lemma parse_rows_width lines df :
  _parse_table_lines lines = Some df ->
  Forall (fun row => length row = length (columns df)) (rows df).
Proof.
  intros H. apply parse_table_lines_some in H as [_ ->].
  apply Forall_map. apply Forall_forall. intros cells Hin.
  apply filter_In in Hin as [_ Hw]. rewrite length_map.
  now apply Nat.eqb_eq.
Qed.

Lemma flush_parsed tbls block :
  Forall parsed tbls -> Forall parsed (flush tbls block).
Proof.
  intros H. unfold flush. destruct (_parse_table_lines block) as [df |] eqn:E.
  - apply Forall_app. split; [assumption |].
    constructor; [now exists block | constructor].
  - assumption.
Qed.

Lemma scan_step_parsed st line :
  Forall parsed (tables st) -> Forall parsed (tables (scan_step st line)).
Proof.
  intros H. unfold scan_step.
  destruct (contains PIPE (rstrip line) && startswith PIPE (strip (rstrip line))).
  - assumption.
  - destruct (in_table st && truthy (current_table st)); [| assumption].
    simpl. now apply flush_parsed.
Qed.

Lemma scan_parsed lines : forall st,
  Forall parsed (tables st) ->
  Forall parsed (tables (fold_left scan_step lines st)).
Proof.
  induction lines as [| l ls IH]; intros st H; simpl; [assumption |].
  apply IH. now apply scan_step_parsed.
Qed.

Lemma extract_parsed content : Forall parsed (_extract_markdown_tables content).
Proof.
  unfold _extract_markdown_tables.
  set (st := fold_left scan_step (split NEWLINE content) (mkScan [] false [])).
  assert (H : Forall parsed (tables st)) by (apply scan_parsed; constructor).
  destruct (in_table st && truthy (current_table st)); [now apply flush_parsed | assumption].
Qed.

(** A line that opens and closes with a pipe joins the current block as
    it is. *)
Lemma scan_step_table_line st body :
  scan_step st (PIPE :: body ++ [PIPE])
  = mkScan (tables st) true (current_table st ++ [PIPE :: body ++ [PIPE]]).
Proof.
  pose proof (rstrip_snoc_keep (PIPE :: body) PIPE eq_refl) as R.
  change ((PIPE :: body) ++ [PIPE]) with (PIPE :: body ++ [PIPE]) in R.
  assert (S : strip (PIPE :: body ++ [PIPE]) = PIPE :: body ++ [PIPE]).
  { unfold strip. change (lstrip (PIPE :: body ++ [PIPE])) with (PIPE :: body ++ [PIPE]).
    exact R. }
  unfold scan_step. rewrite R, S. reflexivity.
Qed.

Lemma scan_table_lines ls : forall st,
  Forall (fun l => exists body, l = PIPE :: body ++ [PIPE]) ls ->
  ls <> [] ->
  fold_left scan_step ls st = mkScan (tables st) true (current_table st ++ ls).
Proof.
  induction ls as [| l ls IH]; intros st H Hne; [contradiction |].
  inversion H as [| ? ? [body ->] Hls]; subst. simpl fold_left.
  rewrite scan_step_table_line. destruct ls as [| l' ls].
  - reflexivity.
  - rewrite IH by (assumption || discriminate). simpl. now rewrite <- app_assoc.
Qed.

(** Text made of table lines, each closed by a line feed, is one block. *)
Lemma extract_one_block ls :
  Forall (fun l => exists body, l = PIPE :: body ++ [PIPE]) ls ->
  forallb (fun l => negb (contains NEWLINE l)) ls = true ->
  ls <> [] ->
  _extract_markdown_tables (concat (map (fun l => l ++ [NEWLINE]) ls)) = flush [] ls.
Proof.
  intros Hshape Hnl Hne. unfold _extract_markdown_tables.
  rewrite (split_lines _ Hnl), fold_left_app, (scan_table_lines _ _ Hshape Hne).
  simpl. destruct ls; [contradiction | reflexivity].
Qed.

End Extraction.

(** ** The Markdown table codec *)

Section Codec.

Lemma strip_table_line body :
  strip (PIPE :: body ++ [PIPE]) = PIPE :: body ++ [PIPE].
Proof.
  unfold strip. change (lstrip (PIPE :: body ++ [PIPE])) with (PIPE :: body ++ [PIPE]).
  exact (rstrip_snoc_keep (PIPE :: body) PIPE eq_refl).
Qed.

Lemma candidate_md_line cells : candidate (md_line cells) = true.
Proof.
  destruct (md_line_shape cells) as [body ->].
  unfold candidate. now rewrite strip_table_line.
Qed.

Lemma filter_all {A} (f : A -> bool) l :
  (forall x, In x l -> f x = true) -> filter f l = l.
Proof.
  induction l as [| x l IH]; intros H; simpl; [reflexivity |].
  rewrite (H x (or_introl eq_refl)), IH; [reflexivity |].
  intros y Hy. apply H. now right.
Qed.

Lemma plain_no_pipe l :
  forallb plain l = true -> forallb (fun c => negb (contains PIPE c)) l = true.
Proof.
  rewrite !forallb_forall. intros H x Hx. apply H in Hx.
  unfold plain in Hx. now apply andb_prop in Hx as [? _].
Qed.

Lemma plain_no_newline l :
  forallb plain l = true -> forallb (fun c => negb (contains NEWLINE c)) l = true.
Proof.
  rewrite !forallb_forall. intros H x Hx. apply H in Hx.
  unfold plain in Hx. now apply andb_prop in Hx as [_ ?].
Qed.

Lemma plain_cells row :
  forallb (fun c => plain (cell_text c)) row = true ->
  forallb plain (map cell_text row) = true.
Proof.
  rewrite !forallb_forall. intros H x Hx.
  apply in_map_iff in Hx as (c & <- & Hc). now apply H.
Qed.

(** Parsing the lines of a rendered frame with two columns or more gives
    the frame back, stripped. *)
Lemma parse_rendered df :
  (2 <= length (columns df))%nat ->
  Forall (fun row => length row = length (columns df)) (rows df) ->
  forallb plain (columns df) = true ->
  forallb (fun row => forallb (fun c => plain (cell_text c)) row) (rows df) = true ->
  _parse_table_lines
    (md_line (columns df)
     :: md_line (repeat (u "---") (length (columns df)))
     :: map (fun row => md_line (map cell_text row)) (rows df))
  = Some (trimmed df).
Proof.
  intros Hn Hw Hc Hr.
  assert (Hcols : columns df <> []) by (destruct (columns df); [simpl in Hn; lia | discriminate]).
  unfold _parse_table_lines, data_lines_of.
  cbn [length Nat.ltb Nat.leb nth slice_2 skipn].
  rewrite (separator_row_matches _ Hn).
  rewrite (split_cells_md_line _ Hcols (plain_no_pipe _ Hc)).
  assert (Htr : truthy (map strip (columns df)) = true)
    by (destruct (columns df); [contradiction | reflexivity]).
  rewrite Htr. cbn [negb]. rewrite data_loop. cbn [app].
  unfold trimmed, DataFrame_of. do 3 f_equal.
  rewrite (filter_all candidate)
    by (intros x Hx; apply in_map_iff in Hx as (r & <- & _); apply candidate_md_line).
  rewrite map_map.
  assert (Hrows : map (fun row => split_cells (md_line (map cell_text row))) (rows df)
                  = map (map (fun c => strip (cell_text c))) (rows df)).
  { apply map_ext_in. intros row Hin.
    rewrite Forall_forall in Hw. specialize (Hw row Hin).
    rewrite forallb_forall in Hr. specialize (Hr row Hin).
    rewrite split_cells_md_line.
    - now rewrite map_map.
    - destruct row; [simpl in Hw; lia | discriminate].
    - apply plain_no_pipe. now apply plain_cells. }
  rewrite Hrows. apply filter_all.
  intros x Hx. apply in_map_iff in Hx as (row & <- & Hin).
  rewrite Forall_forall in Hw. rewrite !length_map, (Hw row Hin).
  apply Nat.eqb_refl.
Qed.

(** C1 (as amended): for every frame with at least two columns whose
    column names and cell texts contain neither a pipe nor a line feed,
    extracting from the text [_dataframe_to_md] renders (header row,
    [---] separator row, one row per data row) gives exactly one frame:
    the original with every column name and cell text stripped. *)
Theorem roundtrip_two_columns df :
  (2 <= length (columns df))%nat ->
  Forall (fun row => length row = length (columns df)) (rows df) ->
  forallb plain (columns df) = true ->
  forallb (fun row => forallb (fun c => plain (cell_text c)) row) (rows df) = true ->
  _extract_markdown_tables (md_table (fillna df)) = [trimmed df].
Proof.
  intros Hn Hw Hc Hr. rewrite md_table_fillna, md_table_lines.
  rewrite extract_one_block.
  - unfold flush. now rewrite parse_rendered.
  - repeat constructor; try apply md_line_shape.
    apply Forall_map, Forall_forall. intros row _. apply md_line_shape.
  - cbn [forallb]. rewrite !md_line_no_newline; cbn [negb andb].
    + rewrite forallb_forall. intros l Hl.
      apply in_map_iff in Hl as (row & <- & Hin).
      rewrite forallb_forall in Hr. specialize (Hr row Hin).
      rewrite md_line_no_newline; [reflexivity |].
      apply plain_no_newline. now apply plain_cells.
    + clear. induction (length (columns df)); [reflexivity | assumption].
    + now apply plain_no_newline.
  - discriminate.
Qed.

Lemma roundtrip_two_columns_witness :
  _extract_markdown_tables
    (md_table (fillna (mkDataFrame [u "name"; u "qty"]
                         [[Some (u " tea "); Some (u "2")]; [Some (u "milk"); None]])))
  = [DataFrame_of [[u "tea"; u "2"]; [u "milk"; u ""]] [u "name"; u "qty"]].
Proof.
  apply (roundtrip_two_columns
           (mkDataFrame [u "name"; u "qty"]
              [[Some (u " tea "); Some (u "2")]; [Some (u "milk"); None]])).
  - simpl. lia.
  - repeat constructor.
  - reflexivity.
  - reflexivity.
Defined.

(** C1 as stated fails: no cell holds a pipe, one cell holds a line feed;
    the row is cut in two lines and neither half is kept. *)
Lemma roundtrip_breaks_on_line_feed :
  let df := mkDataFrame [u "k"; u "v"]
              [[Some (u "a" ++ [NEWLINE] ++ u "b"); Some (u "c")]] in
  forallb (fun s => negb (contains PIPE s)) (columns df) = true
  /\ forallb (forallb (fun c => negb (contains PIPE (cell_text c)))) (rows df) = true
  /\ _extract_markdown_tables (md_table (fillna df)) = [DataFrame_of [] [u "k"; u "v"]]
  /\ _extract_markdown_tables (md_table (fillna df)) <> [trimmed df].
Proof.
  repeat split; try (vm_compute; reflexivity).
  vm_compute. discriminate.
Qed.

(** C2: the separator row of a one-column table is not consumed; the
    parser returns it as the first data row.  The text is what
    [_dataframe_to_md] renders for the one-column frame [A] / [1]. *)
Theorem single_column_separator_read_as_data :
  Re.re_match separator_re (u "| --- |") = false
  /\ _parse_table_lines [u "| A |"; u "| --- |"; u "| 1 |"]
     = Some (DataFrame_of [[u "---"]; [u "1"]] [u "A"])
  /\ _extract_markdown_tables (md_table (mkDataFrame [u "A"] [[Some (u "1")]]))
     = [DataFrame_of [[u "---"]; [u "1"]] [u "A"]].
Proof. repeat split; vm_compute; reflexivity. Qed.

(** The pattern also stops looking after the second cell: a second line
    whose third cell is ordinary text is consumed as a separator. *)
Example separator_ignores_later_cells :
  _parse_table_lines [u "| a | b | c |"; u "| - | - | 5 |"; u "| 1 | 2 | 3 |"]
  = Some (DataFrame_of [[u "1"; u "2"; u "3"]] [u "a"; u "b"; u "c"]).
Proof. vm_compute. reflexivity. Qed.

(** C3: every row of every frame [_extract_markdown_tables] returns is as
    wide as the header; the rows of a parsed block are the cells of its
    candidate data lines with the lines of another width filtered out, in
    line order and otherwise unchanged. *)
Theorem rows_match_header_width :
  (forall content df,
      In df (_extract_markdown_tables content) ->
      Forall (fun row => length row = length (columns df)) (rows df))
  /\ (forall lines df,
         _parse_table_lines lines = Some df ->
         rows df
         = map (map (@Some str))
             (filter (fun cells => (length cells =? length (columns df))%nat)
                (map split_cells (filter candidate (data_lines_of lines))))).
Proof.
  split.
  - intros content df Hin.
    pose proof (extract_parsed content) as H. rewrite Forall_forall in H.
    destruct (H df Hin) as [block Hb]. now apply parse_rows_width with (lines := block).
  - intros lines df H. now apply parse_table_lines_some in H as [_ ?].
Qed.

Lemma rows_match_header_width_witness :
  Forall (fun row => length row = length (columns (DataFrame_of [[u "1"; u "2"]] [u "A"; u "B"])))
         (rows (DataFrame_of [[u "1"; u "2"]] [u "A"; u "B"])).
Proof.
  apply (proj1 rows_match_header_width
           (u "| A | B |" ++ [NEWLINE] ++ u "|---|---|" ++ [NEWLINE]
            ++ u "| 1 | 2 |" ++ [NEWLINE] ++ u "| 3 |" ++ [NEWLINE] ++ u "| 4 | 5 | 6 |")).
  vm_compute. left. reflexivity.
Defined.

(** C10: the first and the last field of a split line never become
    cells, whatever they hold: the cells are the fields between the first
    and the last pipe, so text after the last pipe of a line is lost. *)
Theorem split_cells_discards_outer_fields :
  (forall head mid tail,
      contains PIPE head = false -> contains PIPE tail = false ->
      split_cells (head ++ PIPE :: mid ++ PIPE :: tail) = map strip (split PIPE mid))
  /\ (forall body tail,
         contains PIPE tail = false ->
         split_cells (PIPE :: body ++ PIPE :: tail) = split_cells (PIPE :: body ++ [PIPE]))
  /\ split_cells (u "| a | b") = [u "a"].
Proof.
  split; [| split].
  - apply split_cells_outer.
  - intros body tail Ht.
    pose proof (split_cells_outer [] body tail eq_refl Ht) as E1.
    pose proof (split_cells_outer [] body [] eq_refl eq_refl) as E2.
    cbn [app] in E1, E2. now rewrite E1, E2.
  - reflexivity.
Qed.

Lemma split_cells_discards_outer_fields_witness :
  split_cells (u "x" ++ PIPE :: u " a | b " ++ PIPE :: u " c")
  = map strip (split PIPE (u " a | b ")).
Proof.
  apply (proj1 split_cells_discards_outer_fields (u "x") (u " a | b ") (u " c"));
    reflexivity.
Defined.

End Codec.

(** ** Encoding detection *)

(** Bring two descriptions of a world to the same shape. *)
Ltac same_world :=
  unfold printed, called, saved; cbn [disk stdout written workbooks calls];
  rewrite <- ?app_assoc; cbn [app]; try reflexivity.

Section Detection.

Context (L : Libraries).

Lemma probe_run path encoding n w b :
  disk w path = Some b ->
  probe L path encoding n w
  = (match probe_result L b n encoding with
     | inl e => Raise e
     | inr _ => Ret encoding
     end,
     called (probe_calls L b n encoding) w).
Proof.
  intros Hb. unfold probe, probe_result, probe_calls, open_rb, bind, log.
  rewrite Hb. destruct (codec_decode L encoding (firstn n b)) as [e |].
  - reflexivity.
  - cbn [disk called]. rewrite Hb.
    destruct (text_read L (Some encoding) b (Some 100%nat)) as [e | t];
      unfold lift, raise, ret; f_equal; same_world.
Qed.

Lemma try_encodings_skip path encoding rest n w b :
  disk w path = Some b ->
  skipped L b n encoding = true ->
  try_encodings L (encoding :: rest) path n w
  = try_encodings L rest path n (called (probe_calls L b n encoding) w).
Proof.
  intros Hb Hs. cbn [try_encodings]. unfold try_except, bind.
  rewrite (probe_run _ _ _ _ _ Hb). unfold skipped in Hs.
  destruct (probe_result L b n encoding) as [e | t]; [| discriminate].
  now rewrite Hs.
Qed.

Lemma try_encodings_pass path encoding rest n w b :
  disk w path = Some b ->
  passes L b n encoding = true ->
  try_encodings L (encoding :: rest) path n w
  = (Ret (Some encoding), called (probe_calls L b n encoding) w).
Proof.
  intros Hb Hp. cbn [try_encodings]. unfold try_except, bind.
  rewrite (probe_run _ _ _ _ _ Hb). unfold passes in Hp.
  destruct (probe_result L b n encoding) as [e | t]; [discriminate | reflexivity].
Qed.

Lemma called_called cs ds w : called ds (called cs w) = called (cs ++ ds) w.
Proof. same_world. Qed.

Lemma called_nil w : called [] w = w.
Proof. destruct w. unfold called. simpl. now rewrite app_nil_r. Qed.

(** The loop skips every candidate that fails to decode, in order. *)
Lemma try_encodings_skip_all path n b before : forall rest w,
  disk w path = Some b ->
  forallb (skipped L b n) before = true ->
  try_encodings L (before ++ rest) path n w
  = try_encodings L rest path n (called (flat_map (probe_calls L b n) before) w).
Proof.
  induction before as [| e before IH]; intros rest w Hb Hs.
  - simpl. now rewrite called_nil.
  - simpl in Hs. apply andb_prop in Hs as [He Hs].
    change ((e :: before) ++ rest) with (e :: before ++ rest).
    rewrite (try_encodings_skip _ _ _ _ _ _ Hb He), IH by assumption.
    now rewrite called_called.
Qed.

Lemma probe_calls_no_chardet b n encodings :
  ~ In CallChardet (flat_map (probe_calls L b n) encodings).
Proof.
  intros H. apply in_flat_map in H as (e & _ & H). unfold probe_calls in H.
  destruct H as [H | H]; [discriminate |].
  destruct (codec_decode L e (firstn n b)); [contradiction |].
  destruct H as [H | []]. discriminate.
Qed.

Lemma forallb_firstn {A} (f : A -> bool) n l :
  forallb f l = true -> forallb f (firstn n l) = true.
Proof.
  revert n. induction l as [| x l IH]; intros n H; destruct n; try reflexivity.
  simpl in *. apply andb_prop in H as [Hx Hl]. now rewrite Hx, IH.
Qed.

(** C4: on a readable file, when a candidate of [SUPPORTED_ENCODINGS]
    passes both decoding checks and every candidate before it fails one
    of them, [detect_encoding] returns that candidate, having called the
    codecs only and never chardet; with an ASCII-compatible [utf-8] codec,
    a file of 7-bit bytes is detected as [utf-8], the first candidate. *)
Theorem detect_encoding_first_candidate path n w b :
  disk w path = Some b ->
  (forall before encoding after,
      SUPPORTED_ENCODINGS = before ++ encoding :: after ->
      forallb (skipped L b n) before = true ->
      passes L b n encoding = true ->
      detect_encoding L path n w
      = (Ret (Some encoding),
         called (flat_map (probe_calls L b n) (before ++ [encoding])) w)
      /\ ~ In CallChardet (flat_map (probe_calls L b n) (before ++ [encoding])))
  /\ (ascii_compatible L (u "utf-8") ->
      forallb is_ascii b = true ->
      detect_encoding L path n w
      = (Ret (Some (u "utf-8")),
         called [CallDecode (u "utf-8"); CallTextRead (Some (u "utf-8"))] w)).
Proof.
  intros Hb.
  assert (first : forall before encoding after,
             SUPPORTED_ENCODINGS = before ++ encoding :: after ->
             forallb (skipped L b n) before = true ->
             passes L b n encoding = true ->
             detect_encoding L path n w
             = (Ret (Some encoding),
                called (flat_map (probe_calls L b n) (before ++ [encoding])) w)).
  { intros before encoding after E Hs Hp. unfold detect_encoding, bind.
    rewrite E, (try_encodings_skip_all _ _ _ _ _ _ Hb Hs).
    rewrite (try_encodings_pass _ _ _ _ _ b) by assumption.
    unfold ret. rewrite called_called, flat_map_app. simpl.
    now rewrite app_nil_r. }
  split.
  - intros before encoding after E Hs Hp. split; [now apply first with (after := after) |].
    apply probe_calls_no_chardet.
  - intros Hc Ha.
    destruct (Hc (firstn n b) (forallb_firstn _ _ _ Ha)) as [Hd _].
    destruct (Hc b Ha) as [_ Ht]. destruct (Ht (Some 100%nat)) as [t Hr].
    rewrite (first [] (u "utf-8") (tl SUPPORTED_ENCODINGS) eq_refl eq_refl).
    + change (flat_map (probe_calls L b n) ([] ++ [u "utf-8"]))
        with (probe_calls L b n (u "utf-8") ++ []).
      rewrite app_nil_r. unfold probe_calls. now rewrite Hd.
    + unfold passes, probe_result. now rewrite Hd, Hr.
Qed.

(** C5: on a readable file that every candidate fails to decode,
    [detect_encoding] returns chardet's guess when chardet is there and
    reports a confidence above 0.7, and [utf-8] when chardet is missing
    or its confidence is not above 0.7. *)
Theorem detect_encoding_fallback path n w b :
  disk w path = Some b ->
  forallb (skipped L b n) SUPPORTED_ENCODINGS = true ->
  let probes := flat_map (probe_calls L b n) SUPPORTED_ENCODINGS in
  (chardet L = None ->
   detect_encoding L path n w = (Ret (Some (u "utf-8")), called probes w))
  /\ (forall detect,
         chardet L = Some detect ->
         let result := detect (firstn (n * 4) b) in
         detect_encoding L path n w
         = (Ret (if PrimFloat.ltb 0.7%float (cd_confidence result)
                 then cd_encoding result
                 else Some (u "utf-8")),
            called (probes ++ [CallChardet]) w)).
Proof.
  intros Hb Hs probes.
  assert (Hloop : try_encodings L SUPPORTED_ENCODINGS path n w
                  = (Ret None, called probes w)).
  { rewrite <- (app_nil_r SUPPORTED_ENCODINGS) at 1.
    now rewrite (try_encodings_skip_all _ _ _ _ _ _ Hb Hs). }
  split.
  - intros Hc. unfold detect_encoding, bind. rewrite Hloop.
    unfold chardet_fallback, try_except. now rewrite Hc.
  - intros detect Hc result. unfold detect_encoding, bind. rewrite Hloop.
    unfold chardet_fallback, try_except, bind, open_rb, log. rewrite Hc.
    cbn [disk called]. rewrite Hb. fold result.
    destruct (PrimFloat.ltb 0.7%float (cd_confidence result));
      unfold ret; f_equal; same_world.
Qed.

End Detection.

(** ** The converters *)

Section Converters.

Context (L : Libraries).

Lemma save_md_run path text w :
  save_md L path text w
  = match text_write L path text with
    | None => (Ret true, printed [MsgDone path] (saved path text w))
    | Some e => (Ret false, printed [MsgWriteError e] w)
    end.
Proof.
  unfold save_md, try_except, bind, write_text.
  destruct (text_write L path text); reflexivity.
Qed.

Lemma dataframe_to_md_run df path w :
  _dataframe_to_md L df path w
  = if empty df then (Ret false, printed [MsgEmptyFrame] w)
    else save_md L path (md_table (fillna df)) w.
Proof. unfold _dataframe_to_md. destruct (empty df); reflexivity. Qed.

(** [_dataframe_to_md] and [excel_to_md] return on every input. *)
Lemma save_md_returns path text w :
  exists r w', save_md L path text w = (Ret r, w').
Proof.
  rewrite save_md_run. destruct (text_write L path text); do 2 eexists; reflexivity.
Qed.

Lemma dataframe_to_md_returns df path w :
  exists r w', _dataframe_to_md L df path w = (Ret r, w').
Proof.
  rewrite dataframe_to_md_run.
  destruct (empty df); [do 2 eexists; reflexivity | apply save_md_returns].
Qed.

Lemma excel_to_md_returns excel_file md_file sheet_name w :
  exists r w', excel_to_md L excel_file md_file sheet_name w = (Ret r, w').
Proof.
  unfold excel_to_md, bind, try_except.
  destruct (load_sheets L excel_file sheet_name w) as [[tbls | e] w1];
    cbn [any_exception]; [apply save_md_returns | do 2 eexists; reflexivity].
Qed.

(** C8: for a frame with columns [h1], [h2] and the one row [x], [y],
    the text [_dataframe_to_md] hands to the file is
    [| h1 | h2 |\n| --- | --- |\n| x | y |\n], and that is the whole file
    when the write succeeds. *)
Theorem two_column_rendering h1 h2 x y path w :
  let df := mkDataFrame [h1; h2] [[Some x; Some y]] in
  let text := u "| " ++ h1 ++ u " | " ++ h2 ++ u " |" ++ [NEWLINE]
              ++ u "| --- | --- |" ++ [NEWLINE]
              ++ u "| " ++ x ++ u " | " ++ y ++ u " |" ++ [NEWLINE] in
  md_table (fillna df) = text
  /\ _dataframe_to_md L df path w = save_md L path text w
  /\ (text_write L path text = None ->
      _dataframe_to_md L df path w
      = (Ret true, printed [MsgDone path] (saved path text w))).
Proof.
  intros df text.
  assert (E : md_table (fillna df) = text).
  { unfold text, df, md_table, md_row. cbn [fillna columns rows map length repeat join concat cell_text].
    rewrite app_nil_r, <- !app_assoc. reflexivity. }
  split; [exact E |]. split.
  - rewrite dataframe_to_md_run. cbn [empty df rows columns]. now rewrite E.
  - intros Hw. rewrite dataframe_to_md_run. cbn [empty df rows columns].
    now rewrite E, save_md_run, Hw.
Qed.

(** C9: a frame without data rows is empty whatever its header:
    [excel_to_md] adds for its sheet the heading, if any, and the blank
    line, and no table row; [_dataframe_to_md] prints its diagnostic and
    returns [False], and the world differs by that output only. *)
Theorem header_only_frame_renders_nothing df :
  rows df = [] ->
  (forall many name,
      sheet_block many (name, df)
      = (if many then u "## " ++ name ++ [NEWLINE; NEWLINE] else []) ++ [NEWLINE])
  /\ (forall path w,
         _dataframe_to_md L df path w = (Ret false, printed [MsgEmptyFrame] w)
         /\ written (snd (_dataframe_to_md L df path w)) = written w).
Proof.
  intros Hr. split.
  - intros many name. unfold sheet_block, fillna, empty. cbn [fst snd rows columns].
    rewrite Hr. reflexivity.
  - intros path w. rewrite dataframe_to_md_run. unfold empty. rewrite Hr.
    split; reflexivity.
Qed.

Lemma pd_read_csv_run csv_file encoding sep w :
  pd_read_csv L csv_file encoding sep w
  = (match read_csv L (disk w csv_file) encoding sep with
     | inl e => Raise e
     | inr df => Ret df
     end, called [CallReadCsv sep] w).
Proof.
  unfold pd_read_csv, bind, log. cbn [disk called].
  destruct (read_csv L (disk w csv_file) encoding sep); reflexivity.
Qed.

Lemma retry_delimiters_cons csv_file encoding sep rest w :
  retry_delimiters L csv_file encoding (sep :: rest) w
  = match read_csv L (disk w csv_file) encoding sep with
    | inr df => (Ret (Some df), printed [MsgDelimiter sep] (called [CallReadCsv sep] w))
    | inl _ => retry_delimiters L csv_file encoding rest (called [CallReadCsv sep] w)
    end.
Proof.
  cbn [retry_delimiters]. unfold try_except, bind. rewrite pd_read_csv_run.
  destruct (read_csv L (disk w csv_file) encoding sep); reflexivity.
Qed.

(** C7 (as amended): when [pd.read_csv] raises with the given delimiter,
    [convert_csv_to_md] calls it again with [;], tab and [|], in that
    order and no further than the first call that returns; the frame of
    that call is rendered; when the three calls raise as well, the
    function returns [False] without rendering. *)
Theorem csv_fallback_order csv_file md_file delimiter w encoding w1 e :
  detect_encoding L csv_file 1024 w = (Ret encoding, w1) ->
  read_csv L (disk w1 csv_file) encoding delimiter = inl e ->
  let parse sep := read_csv L (disk w1 csv_file) encoding sep in
  let start := printed [MsgDetected encoding; MsgCsvReadError e]
                 (called [CallReadCsv delimiter] w1) in
  let render df seps :=
    _dataframe_to_md L df (md_path L csv_file md_file)
      (printed [MsgDelimiter (last seps [])] (called (map CallReadCsv seps) start)) in
  convert_csv_to_md L csv_file md_file delimiter w
  = match parse (u ";"), parse [9], parse (u "|") with
    | inr df, _, _ => render df [u ";"]
    | inl _, inr df, _ => render df [u ";"; [9]]
    | inl _, inl _, inr df => render df [u ";"; [9]; u "|"]
    | inl _, inl _, inl _ =>
        (Ret false, called (map CallReadCsv FALLBACK_DELIMITERS) start)
    end.
Proof.
  intros Hd He parse start render.
  unfold convert_csv_to_md, bind at 1. rewrite Hd.
  unfold bind at 1. unfold print at 1. unfold bind at 1.
  unfold try_except at 1. unfold bind at 1. rewrite pd_read_csv_run.
  cbn [disk printed]. rewrite He.
  cbn [any_exception]. unfold bind at 1. unfold print at 1.
  unfold FALLBACK_DELIMITERS.
  rewrite !retry_delimiters_cons. cbn [disk printed called retry_delimiters].
  fold (parse (u ";")). fold (parse [9]). fold (parse (u "|")).
  subst render start. unfold md_path.
  destruct (parse (u ";")) as [e1 | df1].
  - destruct (parse [9]) as [e2 | df2].
    + destruct (parse (u "|")) as [e3 | df3].
      * unfold ret. f_equal. same_world.
      * f_equal. same_world.
    + f_equal. same_world.
  - f_equal. same_world.
Qed.

End Converters.

(** ** Runs on concrete files *)

Section Runs.

Lemma utf8_decode_ascii l :
  forallb (fun c => c <? 128) l = true -> Double.utf8_decode l = Some l.
Proof.
  induction l as [| c l IH]; intros H; [reflexivity |].
  simpl in H. apply andb_prop in H as [Hc Hl].
  cbn [Double.utf8_decode]. now rewrite Hc, (IH Hl).
Qed.

Lemma ascii_codes raw :
  forallb is_ascii raw = true ->
  forallb (fun c => c <? 128) (map Byte.to_N raw) = true.
Proof.
  induction raw as [| x raw IH]; intros H; [reflexivity |].
  cbn [forallb map] in *. apply andb_prop in H as [Hx Hr].
  unfold is_ascii in Hx. now rewrite Hx, (IH Hr).
Qed.

Lemma double_decodes_ascii raw :
  forallb is_ascii raw = true ->
  Double.decode (fun _ => true) (u "utf-8") raw = inr (map Byte.to_N raw).
Proof.
  intros H. unfold Double.decode. cbn [negb].
  change (Double.str_eqb (u "utf-8") (u "utf-8")) with true. cbv iota.
  now rewrite (utf8_decode_ascii _ (ascii_codes _ H)).
Qed.

(** The [utf-8] codec of the stand-in is ASCII-compatible. *)
Lemma double_utf8_ascii_compatible : ascii_compatible Double.libs (u "utf-8").
Proof.
  intros raw H. unfold Double.libs, Double.make. cbn [codec_decode text_read]. split.
  - now rewrite (double_decodes_ascii _ H).
  - intros limit. unfold Double.open_text. rewrite (double_decodes_ascii _ H).
    eexists. reflexivity.
Qed.

Lemma detect_encoding_first_candidate_witness :
  fst (detect_encoding Double.libs (u "c.txt") 1024
         (Double.one_file (u "c.txt") [x63; xe9]))
  = Ret (Some (u "latin-1"))
  /\ fst (detect_encoding Double.libs (u "a.txt") 1024
            (Double.one_file (u "a.txt") (Double.b "abc")))
     = Ret (Some (u "utf-8")).
Proof.
  split.
  - rewrite (proj1 (proj1 (detect_encoding_first_candidate Double.libs (u "c.txt") 1024
                             (Double.one_file (u "c.txt") [x63; xe9]) [x63; xe9] eq_refl)
                      (firstn 10 SUPPORTED_ENCODINGS) (u "latin-1")
                      (skipn 11 SUPPORTED_ENCODINGS) eq_refl eq_refl eq_refl)).
    reflexivity.
  - rewrite (proj2 (detect_encoding_first_candidate Double.libs (u "a.txt") 1024
                      (Double.one_file (u "a.txt") (Double.b "abc")) (Double.b "abc") eq_refl)
               double_utf8_ascii_compatible eq_refl).
    reflexivity.
Defined.

Lemma detect_encoding_fallback_witness :
  let w := Double.one_file (u "c.txt") [x63; xe9] in
  let guess c := Some (fun _ : bytes => mkChardet (Some (u "windows-1252")) c) in
  fst (detect_encoding (Double.utf8_only None) (u "c.txt") 1024 w)
  = Ret (Some (u "utf-8"))
  /\ fst (detect_encoding (Double.utf8_only (guess 0.73%float)) (u "c.txt") 1024 w)
     = Ret (Some (u "windows-1252"))
  /\ fst (detect_encoding (Double.utf8_only (guess 0.7%float)) (u "c.txt") 1024 w)
     = Ret (Some (u "utf-8")).
Proof.
  intros w guess. split; [| split].
  - rewrite (proj1 (detect_encoding_fallback (Double.utf8_only None) (u "c.txt") 1024
                      w [x63; xe9] eq_refl eq_refl) eq_refl).
    reflexivity.
  - rewrite (proj2 (detect_encoding_fallback (Double.utf8_only (guess 0.73%float))
                      (u "c.txt") 1024 w [x63; xe9] eq_refl eq_refl)
               (fun _ => mkChardet (Some (u "windows-1252")) 0.73%float) eq_refl).
    reflexivity.
  - rewrite (proj2 (detect_encoding_fallback (Double.utf8_only (guess 0.7%float))
                      (u "c.txt") 1024 w [x63; xe9] eq_refl eq_refl)
               (fun _ => mkChardet (Some (u "windows-1252")) 0.7%float) eq_refl).
    reflexivity.
Defined.

(** C6: exceptions leave [md_to_excel] and [convert_csv_to_md].  On a
    missing input file [detect_encoding] raises [FileNotFoundError] ahead
    of every handler, and nothing is printed; a failing workbook write
    raises out of [md_to_excel] after the encoding message alone. *)
Theorem md_to_excel_lets_exceptions_escape :
  (forall L md_file excel_file sheet_name,
      md_to_excel L md_file excel_file sheet_name Double.no_files
      = (Raise FileNotFoundError, Double.no_files))
  /\ (forall L csv_file md_file delimiter,
         convert_csv_to_md L csv_file md_file delimiter Double.no_files
         = (Raise FileNotFoundError, Double.no_files))
  /\ (let table := Double.b "| A | B |" ++ [x0a] ++ Double.b "|---|---|" ++ [x0a]
                   ++ Double.b "| 1 | 2 |" ++ [x0a] in
      let r := md_to_excel Double.read_only_libs (u "t.md") None (u "Sheet1")
                 (Double.one_file (u "t.md") table) in
      fst r = Raise OSError
      /\ stdout (snd r) = [MsgDetected (Some (u "utf-8"))]).
Proof.
  split; [| split].
  - intros. reflexivity.
  - intros. reflexivity.
  - split; vm_compute; reflexivity.
Qed.

(** The sibling writers catch the same failure: on the read-only medium
    [_dataframe_to_md] prints the write diagnostic and returns [False]. *)
Example dataframe_to_md_catches_write_failure :
  let r := _dataframe_to_md Double.read_only_libs
             (mkDataFrame [u "A"] [[Some (u "1")]]) (u "t.md") Double.no_files in
  fst r = Ret false /\ stdout (snd r) = [MsgWriteError OSError].
Proof. split; reflexivity. Qed.

Lemma csv_fallback_order_witness :
  let ragged := Double.b "a;b" ++ [x0a] ++ Double.b "1;2" ++ [x0a]
                ++ Double.b "3,4;5,6,7" ++ [x0a] in
  let r := convert_csv_to_md Double.libs (u "data.csv") None (u ",")
             (Double.one_file (u "data.csv") ragged) in
  fst r = Ret true
  /\ calls (snd r)
     = [CallDecode (u "utf-8"); CallTextRead (Some (u "utf-8"));
        CallReadCsv (u ","); CallReadCsv (u ";")].
Proof.
  intros ragged r. subst r.
  rewrite (csv_fallback_order Double.libs (u "data.csv") None (u ",")
             (Double.one_file (u "data.csv") ragged) (Some (u "utf-8"))
             (called [CallDecode (u "utf-8"); CallTextRead (Some (u "utf-8"))]
                (Double.one_file (u "data.csv") ragged))
             LibraryError eq_refl eq_refl).
  split; vm_compute; reflexivity.
Defined.

(** C7 as stated fails: a semicolon-delimited file without a comma is one
    field per line for the comma reader, which returns a one-column frame;
    nothing is raised, [;] is never tried, and the one column is what gets
    rendered. *)
Lemma semicolon_file_parses_with_comma :
  let semicolons := Double.b "a;b" ++ [x0a] ++ Double.b "1;2" ++ [x0a] in
  let r := convert_csv_to_md Double.libs (u "data.csv") None (u ",")
             (Double.one_file (u "data.csv") semicolons) in
  read_csv Double.libs (Some semicolons) (Some (u "utf-8")) (u ",")
  = inr (mkDataFrame [u "a;b"] [[Some (u "1;2")]])
  /\ fst r = Ret true
  /\ stdout (snd r) = [MsgDetected (Some (u "utf-8")); MsgDone (u "data.md")]
  /\ calls (snd r)
     = [CallDecode (u "utf-8"); CallTextRead (Some (u "utf-8")); CallReadCsv (u ",")]
  /\ written (snd r)
     = [(u "data.md",
         u "| a;b |" ++ [NEWLINE] ++ u "| --- |" ++ [NEWLINE] ++ u "| 1;2 |" ++ [NEWLINE])].
Proof. repeat split; vm_compute; reflexivity. Qed.

Lemma two_column_rendering_witness :
  _dataframe_to_md Double.libs
    (mkDataFrame [u "x_col"; u "y_col"] [[Some (u "x"); Some (u "y")]])
    (u "out.md") Double.no_files
  = (Ret true,
     printed [MsgDone (u "out.md")]
       (saved (u "out.md")
          (u "| x_col | y_col |" ++ [NEWLINE] ++ u "| --- | --- |" ++ [NEWLINE]
           ++ u "| x | y |" ++ [NEWLINE])
          Double.no_files)).
Proof.
  apply (proj2 (proj2 (two_column_rendering Double.libs (u "x_col") (u "y_col")
                         (u "x") (u "y") (u "out.md") Double.no_files))).
  reflexivity.
Defined.

Lemma header_only_frame_renders_nothing_witness :
  sheet_block true (u "Sheet2", mkDataFrame [u "A"; u "B"] [])
  = u "## Sheet2" ++ [NEWLINE; NEWLINE; NEWLINE]
  /\ _dataframe_to_md Double.libs (mkDataFrame [u "A"; u "B"] []) (u "out.md")
       Double.no_files
     = (Ret false, printed [MsgEmptyFrame] Double.no_files).
Proof.
  split.
  - rewrite (proj1 (header_only_frame_renders_nothing Double.libs
                      (mkDataFrame [u "A"; u "B"] []) eq_refl)).
    reflexivity.
  - apply (proj2 (header_only_frame_renders_nothing Double.libs
                    (mkDataFrame [u "A"; u "B"] []) eq_refl)).
Defined.

End Runs.

(** * Further properties *)

(** ** Extraction, block by block *)

Section Blocks.

Lemma extract_as_lines content :
  _extract_markdown_tables content = extract_lines (split NEWLINE content).
Proof. reflexivity. Qed.

Lemma scan_step_table st l :
  table_line l = true ->
  scan_step st l = mkScan (tables st) true (current_table st ++ [rstrip l]).
Proof.
  intros H. unfold table_line in H. unfold scan_step. cbv zeta in *. now rewrite H.
Qed.

Lemma scan_step_other st l :
  table_line l = false ->
  scan_step st l
  = if in_table st && truthy (current_table st)
    then mkScan (flush (tables st) (current_table st)) false []
    else st.
Proof.
  intros H. unfold table_line in H. unfold scan_step. cbv zeta in *. now rewrite H.
Qed.

Lemma flush_app ts cur : flush ts cur = ts ++ flush [] cur.
Proof.
  unfold flush. destruct (_parse_table_lines cur); [reflexivity | now rewrite app_nil_r].
Qed.

Lemma truthy_snoc {A} (l : list A) x : truthy (l ++ [x]) = true.
Proof. now destruct l. Qed.

(** The tables found so far do not influence what is found next. *)
Lemma finish_scan_tables ls : forall ts b cur,
  finish (fold_left scan_step ls (mkScan ts b cur))
  = ts ++ finish (fold_left scan_step ls (mkScan [] b cur)).
Proof.
  induction ls as [| l ls IH]; intros ts b cur; cbn [fold_left].
  - unfold finish. cbn [in_table current_table tables].
    destruct (b && truthy cur); [apply flush_app | now rewrite app_nil_r].
  - destruct (table_line l) eqn:T.
    + rewrite !(scan_step_table _ _ T). cbn [in_table current_table tables]. apply IH.
    + rewrite !(scan_step_other _ _ T). cbn [in_table current_table tables].
      destruct (b && truthy cur).
      * rewrite IH, (IH (flush [] cur)), (flush_app ts cur), app_assoc. reflexivity.
      * apply IH.
Qed.

Lemma scan_block block : forall ts b cur rest,
  forallb table_line block = true ->
  fold_left scan_step (block ++ rest) (mkScan ts b cur)
  = fold_left scan_step rest
      (mkScan ts (b || truthy block) (cur ++ map rstrip block)).
Proof.
  induction block as [| l block IH]; intros ts b cur rest H.
  - cbn [app map truthy]. now rewrite orb_false_r, app_nil_r.
  - cbn [forallb] in H. apply andb_prop in H as [Hl Hb].
    cbn [app fold_left]. rewrite (scan_step_table _ _ Hl).
    cbn [in_table current_table tables]. rewrite (IH _ _ _ _ Hb).
    cbn [map truthy orb]. rewrite orb_true_r, <- app_assoc. reflexivity.
Qed.

Lemma scan_wf ls : forall st,
  in_table st = truthy (current_table st) ->
  in_table (fold_left scan_step ls st)
  = truthy (current_table (fold_left scan_step ls st)).
Proof.
  induction ls as [| l ls IH]; intros st H; cbn [fold_left]; [assumption |].
  apply IH. destruct (table_line l) eqn:T.
  - rewrite (scan_step_table _ _ T). cbn [in_table current_table].
    now rewrite truthy_snoc.
  - rewrite (scan_step_other _ _ T).
    destruct (in_table st && truthy (current_table st)); [reflexivity | assumption].
Qed.

(** After a line that is no table line no block is open. *)
Lemma scan_step_closes st l :
  in_table st = truthy (current_table st) ->
  table_line l = false ->
  scan_step st l = mkScan (tables (scan_step st l)) false [].
Proof.
  intros W T. rewrite (scan_step_other _ _ T).
  destruct (in_table st && truthy (current_table st)) eqn:E; [reflexivity |].
  destruct st as [ts b cur]. cbn [in_table current_table tables] in *. subst b.
  destruct cur; [reflexivity | discriminate].
Qed.

Lemma extract_lines_cut la s lb :
  table_line s = false ->
  extract_lines (la ++ s :: lb) = extract_lines (la ++ [s]) ++ extract_lines lb.
Proof.
  intros T. unfold extract_lines. rewrite !fold_left_app. cbn [fold_left].
  set (st := fold_left scan_step la (mkScan [] false [])).
  assert (W : in_table st = truthy (current_table st)) by (apply scan_wf; reflexivity).
  rewrite (scan_step_closes _ _ W T), finish_scan_tables. f_equal.
Qed.

Lemma extract_lines_skip s rest :
  table_line s = false -> extract_lines (s :: rest) = extract_lines rest.
Proof.
  intros T. unfold extract_lines. cbn [fold_left].
  now rewrite (scan_step_other _ _ T).
Qed.

Lemma extract_lines_block block s rest :
  block <> [] -> forallb table_line block = true -> table_line s = false ->
  extract_lines (block ++ s :: rest)
  = flush [] (map rstrip block) ++ extract_lines rest.
Proof.
  intros Hne Hb T. unfold extract_lines.
  rewrite (scan_block _ _ _ _ _ Hb). cbn [fold_left orb app].
  rewrite (scan_step_other _ _ T). cbn [in_table current_table tables].
  destruct block as [| l block]; [contradiction |]. cbn [truthy map andb].
  apply finish_scan_tables.
Qed.

Lemma extract_lines_last_block block :
  block <> [] -> forallb table_line block = true ->
  extract_lines block = flush [] (map rstrip block).
Proof.
  intros Hne Hb. unfold extract_lines.
  rewrite <- (app_nil_r block) at 1. rewrite (scan_block _ _ _ _ _ Hb).
  cbn [fold_left orb app]. unfold finish. cbn [in_table current_table tables].
  destruct block as [| l block]; [contradiction | reflexivity].
Qed.

(** X1: [_extract_markdown_tables] works block by block.  A line that is
    no table line is passed over; a run of table lines closed by such a
    line is parsed on its own, its lines right-stripped, and what follows
    is extracted independently; a run that ends the input is parsed as
    well. *)
Theorem extract_lines_blockwise :
  (forall s rest,
      table_line s = false -> extract_lines (s :: rest) = extract_lines rest)
  /\ (forall block s rest,
         block <> [] -> forallb table_line block = true -> table_line s = false ->
         extract_lines (block ++ s :: rest)
         = flush [] (map rstrip block) ++ extract_lines rest)
  /\ (forall block,
         block <> [] -> forallb table_line block = true ->
         extract_lines block = flush [] (map rstrip block)).
Proof.
  split; [exact extract_lines_skip | split].
  - exact extract_lines_block.
  - exact extract_lines_last_block.
Qed.

Lemma extract_lines_blockwise_witness :
  extract_lines [u "| a | b |"; u "| 1 | 2 |  "; u "text"; u "| c |"]
  = flush [] [u "| a | b |"; u "| 1 | 2 |"] ++ extract_lines [u "| c |"].
Proof.
  apply (proj1 (proj2 extract_lines_blockwise)
           [u "| a | b |"; u "| 1 | 2 |  "] (u "text") [u "| c |"]).
  - discriminate.
  - reflexivity.
  - reflexivity.
Defined.

(** X2: two texts joined by a line feed are extracted independently as
    soon as the last line of the first is no table line; in particular
    when the first text ends with a line feed. *)
Theorem extract_concat a b :
  table_line (last (split NEWLINE a) []) = false ->
  _extract_markdown_tables (a ++ NEWLINE :: b)
  = _extract_markdown_tables a ++ _extract_markdown_tables b.
Proof.
  intros T. rewrite !extract_as_lines, split_app.
  destruct (exists_last (split_nonempty NEWLINE a)) as (la & s & E).
  rewrite E in *. rewrite last_last in T.
  rewrite <- app_assoc. cbn [app]. now apply extract_lines_cut.
Qed.

Lemma extract_concat_witness :
  _extract_markdown_tables
    ((u "| a | b |" ++ [NEWLINE] ++ u "| 1 | 2 |" ++ [NEWLINE])
     ++ NEWLINE :: u "| c | d |" ++ [NEWLINE] ++ u "| 3 | 4 |")
  = [DataFrame_of [[u "1"; u "2"]] [u "a"; u "b"];
     DataFrame_of [[u "3"; u "4"]] [u "c"; u "d"]].
Proof.
  rewrite (extract_concat (u "| a | b |" ++ [NEWLINE] ++ u "| 1 | 2 |" ++ [NEWLINE])
             (u "| c | d |" ++ [NEWLINE] ++ u "| 3 | 4 |") eq_refl).
  reflexivity.
Defined.

End Blocks.

(** ** What stripping and splitting keep *)

Section StripFacts.

Lemma lstrip_cases s :
  lstrip s = [] \/ exists c t, lstrip s = c :: t /\ isspace c = false.
Proof.
  induction s as [| c s IH]; [now left |]. cbn [lstrip].
  destruct (isspace c) eqn:E; [exact IH | right; now exists c, s].
Qed.

Lemma lstrip_idem s : lstrip (lstrip s) = lstrip s.
Proof.
  destruct (lstrip_cases s) as [-> | (c & t & -> & H)]; [reflexivity |].
  cbn [lstrip]. now rewrite H.
Qed.

Lemma rstrip_idem s : rstrip (rstrip s) = rstrip s.
Proof. unfold rstrip. now rewrite rev_involutive, lstrip_idem. Qed.

Lemma lstrip_snoc_keep s c : isspace c = false -> lstrip (s ++ [c]) = lstrip s ++ [c].
Proof.
  intros H. induction s as [| d s IH]; cbn [app lstrip].
  - now rewrite H.
  - destruct (isspace d); [exact IH | reflexivity].
Qed.

Lemma rstrip_cons_keep c t : isspace c = false -> rstrip (c :: t) = c :: rstrip t.
Proof.
  intros H. unfold rstrip. cbn [rev].
  now rewrite (lstrip_snoc_keep _ _ H), rev_unit.
Qed.

(** Stripping twice is stripping once. *)
Lemma strip_idem s : strip (strip s) = strip s.
Proof.
  unfold strip. destruct (lstrip_cases s) as [-> | (c & t & -> & H)]; [reflexivity |].
  rewrite (rstrip_cons_keep _ _ H). cbn [lstrip]. rewrite H.
  now rewrite <- (rstrip_cons_keep _ _ H), rstrip_idem.
Qed.

Lemma lstrip_suffix s : exists p, s = p ++ lstrip s.
Proof.
  induction s as [| c s [p IH]]; [now exists [] |]. cbn [lstrip].
  destruct (isspace c); [| now exists []].
  exists (c :: p). cbn [app]. now rewrite <- IH.
Qed.

Lemma rstrip_prefix s : exists q, s = rstrip s ++ q.
Proof.
  destruct (lstrip_suffix (rev s)) as [p E]. exists (rev p). unfold rstrip.
  rewrite <- rev_app_distr, <- E. now rewrite rev_involutive.
Qed.

Lemma contains_lstrip c s : contains c s = false -> contains c (lstrip s) = false.
Proof.
  intros H. destruct (lstrip_suffix s) as [p E]. rewrite E, contains_app in H.
  now apply orb_false_elim in H as [_ ?].
Qed.

Lemma contains_rstrip c s : contains c s = false -> contains c (rstrip s) = false.
Proof.
  intros H. destruct (rstrip_prefix s) as [q E]. rewrite E, contains_app in H.
  now apply orb_false_elim in H as [? _].
Qed.

Lemma contains_strip c s : contains c s = false -> contains c (strip s) = false.
Proof. intros H. unfold strip. now apply contains_rstrip, contains_lstrip. Qed.

(** A field never holds the separator, nor anything the text does not
    hold. *)
Lemma split_field_no_sep sep s : forall f, In f (split sep s) -> contains sep f = false.
Proof.
  induction s as [| c s IH]; intros f Hin; cbn [split] in Hin.
  - destruct Hin as [<- | []]. reflexivity.
  - destruct (N.eqb_spec c sep) as [-> | Hne].
    + destruct Hin as [<- | Hin]; [reflexivity | now apply IH].
    + destruct (split sep s) as [| g gs] eqn:E; [now apply split_nonempty in E |].
      destruct Hin as [<- | Hin].
      * unfold contains. cbn [existsb].
        replace (sep =? c) with false by (symmetry; apply N.eqb_neq; congruence).
        apply (IH g). now left.
      * apply IH. now right.
Qed.

Lemma split_field_contains c sep s :
  contains c s = false -> forall f, In f (split sep s) -> contains c f = false.
Proof.
  induction s as [| d s IH]; intros H f Hin; cbn [split] in Hin.
  - destruct Hin as [<- | []]. reflexivity.
  - unfold contains in H. cbn [existsb] in H. apply orb_false_elim in H as [Hd Hs].
    destruct (d =? sep).
    + destruct Hin as [<- | Hin]; [reflexivity | now apply IH].
    + destruct (split sep s) as [| g gs] eqn:E; [now apply split_nonempty in E |].
      destruct Hin as [<- | Hin].
      * unfold contains. cbn [existsb]. rewrite Hd. apply (IH Hs g). now left.
      * apply (IH Hs). now right.
Qed.

Lemma in_tl {A} (x : A) l : In x (tl l) -> In x l.
Proof. destruct l; [intros [] | now right]. Qed.

Lemma in_removelast {A} (x : A) l : In x (removelast l) -> In x l.
Proof.
  induction l as [| y l IH]; [intros [] |]. cbn [removelast].
  destruct l; [intros [] |]. intros [-> | H]; [now left | right; now apply IH].
Qed.

(** Every cell of a line free of line feeds is stripped, free of pipes
    and free of line feeds. *)
Lemma split_cells_tidy line :
  contains NEWLINE line = false -> Forall tidy (split_cells line).
Proof.
  intros H. unfold split_cells, slice_1_m1. apply Forall_map, Forall_forall.
  intros f Hin. apply in_removelast, in_tl in Hin. repeat split.
  - apply strip_idem.
  - apply contains_strip. now apply split_field_no_sep with (s := line).
  - apply contains_strip. now apply split_field_contains with (sep := PIPE) (s := line).
Qed.

Lemma length_split sep s : length (split sep s) = S (count_char sep s).
Proof.
  unfold count_char. induction s as [| c s IH]; [reflexivity |].
  cbn [split filter]. rewrite (N.eqb_sym sep c). destruct (c =? sep).
  - cbn [length]. now rewrite IH.
  - destruct (split sep s) eqn:E; [now apply split_nonempty in E |].
    cbn [length] in *. exact IH.
Qed.

Lemma length_slice_1_m1 {A} (l : list A) : length (slice_1_m1 l) = (length l - 2)%nat.
Proof.
  unfold slice_1_m1. destruct l as [| x l]; [reflexivity |]. cbn [tl length].
  destruct l as [| y l] using rev_ind; [reflexivity |].
  rewrite removelast_snoc, length_app. cbn [length]. lia.
Qed.

(** A line has one cell less than it has pipes. *)
Lemma length_split_cells line :
  length (split_cells line) = (count_char PIPE line - 1)%nat.
Proof.
  unfold split_cells. rewrite length_map, length_slice_1_m1, length_split. lia.
Qed.

End StripFacts.

(** ** Where extracted tables come from *)

Section Origin.

Variable Q : str -> Prop.

Lemma flush_from ts cur :
  Forall (parsed_from Q) ts -> Forall Q cur -> Forall (parsed_from Q) (flush ts cur).
Proof.
  intros Ht Hc. unfold flush. destruct (_parse_table_lines cur) as [df |] eqn:E.
  - apply Forall_app. split; [assumption |].
    constructor; [now exists cur | constructor].
  - assumption.
Qed.

Lemma scan_from ls : forall st,
  (forall l, In l ls -> table_line l = true -> Q (rstrip l)) ->
  Forall (parsed_from Q) (tables st) -> Forall Q (current_table st) ->
  Forall (parsed_from Q) (tables (fold_left scan_step ls st))
  /\ Forall Q (current_table (fold_left scan_step ls st)).
Proof.
  induction ls as [| l ls IH]; intros st H Ht Hc; cbn [fold_left]; [now split |].
  assert (H' : forall l', In l' ls -> table_line l' = true -> Q (rstrip l'))
    by (intros l' Hin; apply H; now right).
  destruct (table_line l) eqn:T.
  - rewrite (scan_step_table _ _ T). apply IH; cbn [tables current_table]; auto.
    apply Forall_app. split; [assumption |].
    constructor; [apply H; [now left | assumption] | constructor].
  - rewrite (scan_step_other _ _ T).
    destruct (in_table st && truthy (current_table st)).
    + apply IH; cbn [tables current_table]; auto. now apply flush_from.
    + now apply IH.
Qed.

(** Every extracted frame was parsed from a block of right-stripped
    table lines of the input. *)
Lemma extract_lines_from lines :
  (forall l, In l lines -> table_line l = true -> Q (rstrip l)) ->
  Forall (parsed_from Q) (extract_lines lines).
Proof.
  intros H. unfold extract_lines, finish.
  destruct (scan_from lines (mkScan [] false []) H) as [Ht Hc]; try constructor.
  destruct (in_table _ && truthy _); [now apply flush_from | assumption].
Qed.

End Origin.

Section Invariants.

Lemma in_skipn {A} (x : A) n l : In x (skipn n l) -> In x l.
Proof.
  intros H. rewrite <- (firstn_skipn n l). apply in_or_app. now right.
Qed.

Lemma in_data_lines l lines : In l (data_lines_of lines) -> In l lines.
Proof.
  unfold data_lines_of, slice_1, slice_2.
  destruct (Re.re_match separator_re (nth 1 lines [])); apply in_skipn.
Qed.

Lemma parsed_tidy df :
  parsed_from (fun l => contains NEWLINE l = false) df ->
  Forall tidy (columns df)
  /\ Forall (Forall (fun c : cell => exists s, c = Some s /\ tidy s)) (rows df).
Proof.
  intros (block & Hp & Hq). rewrite Forall_forall in Hq.
  apply parse_table_lines_some in Hp as [Hc Hr]. split.
  - rewrite Hc. apply split_cells_tidy.
    destruct block as [| h block]; [reflexivity | apply Hq; now left].
  - rewrite Hr. apply Forall_map, Forall_forall. intros cells Hin.
    apply filter_In in Hin as [Hin _].
    apply in_map_iff in Hin as (l & <- & Hl). apply filter_In in Hl as [Hl _].
    apply in_data_lines, Hq in Hl.
    apply Forall_map. eapply Forall_impl; [| apply (split_cells_tidy _ Hl)].
    intros s Hs. now exists s.
Qed.

Lemma extracted_from_lines content :
  Forall (parsed_from (fun l => contains NEWLINE l = false))
         (_extract_markdown_tables content).
Proof.
  rewrite extract_as_lines. apply extract_lines_from. intros l Hin _.
  apply contains_rstrip. now apply split_field_no_sep with (s := content).
Qed.

(** X3: every column name and every cell of every extracted table is a
    string (no missing value), stripped of surrounding whitespace, with
    no pipe and no line feed in it. *)
Theorem extracted_cells_tidy content df :
  In df (_extract_markdown_tables content) ->
  Forall tidy (columns df)
  /\ Forall (Forall (fun c : cell => exists s, c = Some s /\ tidy s)) (rows df).
Proof.
  intros Hin. apply parsed_tidy.
  pose proof (extracted_from_lines content) as H. rewrite Forall_forall in H.
  now apply H.
Qed.

Lemma extracted_cells_tidy_witness :
  Forall tidy [u "a b"; u "c"]
  /\ Forall (Forall (fun c : cell => exists s, c = Some s /\ tidy s))
            [[Some (u "1"); Some (u "")]].
Proof.
  apply (extracted_cells_tidy
           (u "|  a b | c  |" ++ [NEWLINE] ++ u "| 1 ||")
           (DataFrame_of [[u "1"; u ""]] [u "a b"; u "c"])).
  left. reflexivity.
Defined.

Lemma scan_no_table ls : forall st,
  in_table st = false ->
  forallb (fun l => negb (table_line l)) ls = true ->
  fold_left scan_step ls st = st.
Proof.
  induction ls as [| l ls IH]; intros st Hi H; cbn [fold_left]; [reflexivity |].
  cbn [forallb] in H. apply andb_prop in H as [Hl Hls].
  apply negb_true_iff in Hl. rewrite (scan_step_other _ _ Hl), Hi. cbn [andb].
  now apply IH.
Qed.

Lemma table_line_needs_pipe l : contains PIPE l = false -> table_line l = false.
Proof. intros H. unfold table_line. now rewrite (contains_rstrip _ _ H). Qed.

(** X4: text none of whose lines is a table line yields no table; so
    does text without a pipe. *)
Theorem no_table_line_no_table content :
  (forallb (fun l => negb (table_line l)) (split NEWLINE content) = true ->
   _extract_markdown_tables content = [])
  /\ (contains PIPE content = false -> _extract_markdown_tables content = []).
Proof.
  assert (first : forallb (fun l => negb (table_line l)) (split NEWLINE content) = true ->
                  _extract_markdown_tables content = []).
  { intros H. rewrite extract_as_lines. unfold extract_lines.
    now rewrite (scan_no_table _ (mkScan [] false []) eq_refl H). }
  split; [exact first |].
  intros H. apply first. apply forallb_forall. intros l Hin.
  apply negb_true_iff, table_line_needs_pipe.
  now apply split_field_contains with (sep := NEWLINE) (s := content).
Qed.

Lemma no_table_line_no_table_witness :
  _extract_markdown_tables (u "a | b" ++ [NEWLINE] ++ u "# title | x |") = []
  /\ _extract_markdown_tables (u "plain" ++ [NEWLINE] ++ u "text") = [].
Proof.
  split.
  - apply (proj1 (no_table_line_no_table _)). reflexivity.
  - apply (proj2 (no_table_line_no_table _)). reflexivity.
Defined.

(** X5: [_parse_table_lines] returns no table exactly for a block of
    fewer than two lines or a first line with fewer than two pipes. *)
Theorem parse_table_lines_none lines :
  _parse_table_lines lines = None
  <-> (length lines < 2)%nat \/ (count_char PIPE (nth 0 lines []) <= 1)%nat.
Proof.
  unfold _parse_table_lines.
  pose proof (length_split_cells (nth 0 lines [])) as Hlen.
  destruct (Nat.ltb_spec (length lines) 2) as [Hlt | Hge].
  - split; [now left | reflexivity].
  - destruct (split_cells (nth 0 lines [])) as [| c cs]; cbn [truthy negb length] in *.
    + split; [intros _; right; lia | reflexivity].
    + split; [discriminate | intros [H | H]; lia].
Qed.

(** X6: a parsed table has one column less than its first line has
    pipes, at least one, and at most one row per line after the first;
    a second line matching the separator pattern gives no row. *)
Theorem parse_table_lines_size lines df :
  _parse_table_lines lines = Some df ->
  length (columns df) = (count_char PIPE (nth 0 lines []) - 1)%nat
  /\ (1 <= length (columns df))%nat
  /\ (length (rows df) <= length lines - 1)%nat
  /\ (Re.re_match separator_re (nth 1 lines []) = true ->
      (length (rows df) <= length lines - 2)%nat).
Proof.
  intros H.
  assert (Hne : columns df <> []).
  { unfold _parse_table_lines in H.
    destruct (length lines <? 2)%nat; [discriminate |].
    destruct (split_cells (nth 0 lines [])) eqn:E; [discriminate |].
    injection H as <-. discriminate. }
  apply parse_table_lines_some in H as [Hc Hr].
  assert (Hrows : (length (rows df) <= length (data_lines_of lines))%nat).
  { rewrite Hr, length_map.
    etransitivity; [apply filter_length_le |]. rewrite length_map.
    apply filter_length_le. }
  repeat split.
  - rewrite Hc. apply length_split_cells.
  - destruct (columns df); [contradiction | cbn [length]; lia].
  - etransitivity; [exact Hrows |]. unfold data_lines_of, slice_1, slice_2.
    destruct (Re.re_match separator_re (nth 1 lines [])); rewrite length_skipn; lia.
  - intros Hm. etransitivity; [exact Hrows |]. unfold data_lines_of, slice_2.
    rewrite Hm, length_skipn. lia.
Qed.

Lemma parse_table_lines_size_witness :
  length [u "a"; u "b"] = (count_char PIPE (u "| a | b |") - 1)%nat
  /\ (1 <= length [u "a"; u "b"])%nat
  /\ (length [[Some (u "1"); Some (u "2")]] <= 3 - 1)%nat
  /\ (Re.re_match separator_re (u "|---|---|") = true ->
      (length [[Some (u "1"); Some (u "2")]] <= 3 - 2)%nat).
Proof.
  apply (parse_table_lines_size [u "| a | b |"; u "|---|---|"; u "| 1 | 2 |"]
           (DataFrame_of [[u "1"; u "2"]] [u "a"; u "b"])).
  reflexivity.
Defined.

End Invariants.

(** ** Rendering and extraction together *)

Section RenderExtract.

Lemma table_line_md_line cells : table_line (md_line cells) = true.
Proof.
  destruct (md_line_shape cells) as [body ->]. unfold table_line. cbv zeta.
  pose proof (rstrip_snoc_keep (PIPE :: body) PIPE eq_refl) as R.
  change ((PIPE :: body) ++ [PIPE]) with (PIPE :: body ++ [PIPE]) in R.
  now rewrite R, strip_table_line.
Qed.

Lemma rstrip_md_line cells : rstrip (md_line cells) = md_line cells.
Proof.
  destruct (md_line_shape cells) as [body ->].
  exact (rstrip_snoc_keep (PIPE :: body) PIPE eq_refl).
Qed.

(** A line that opens with a character that is neither whitespace nor a
    pipe is no table line. *)
Lemma table_line_other_start c t :
  isspace c = false -> (c =? PIPE) = false -> table_line (c :: t) = false.
Proof.
  intros Hs Hp. unfold table_line. cbv zeta.
  rewrite (rstrip_cons_keep _ _ Hs). unfold strip. cbn [lstrip]. rewrite Hs.
  rewrite (rstrip_cons_keep _ _ Hs). cbn [startswith]. rewrite Hp.
  apply andb_false_r.
Qed.

Lemma trimmed_fillna df : trimmed (fillna df) = trimmed df.
Proof.
  unfold trimmed, fillna. cbn [columns rows]. f_equal. rewrite map_map.
  apply map_ext. intros row. rewrite map_map. apply map_ext. now intros [s |].
Qed.

Lemma renderable_fillna df : renderable df -> renderable (fillna df).
Proof.
  intros (Hn & Hw & Hc & Hr). unfold renderable, fillna. cbn [columns rows].
  repeat split; try assumption.
  - apply Forall_map. eapply Forall_impl; [| exact Hw].
    intros row E. now rewrite length_map.
  - rewrite forallb_forall in *. intros row Hin.
    apply in_map_iff in Hin as (r & <- & Hin). specialize (Hr r Hin).
    rewrite forallb_forall in *. intros c Hc'.
    apply in_map_iff in Hc' as ([s |] & <- & Hc'); [now apply (Hr (Some s)) |].
    reflexivity.
Qed.

(** The lines of a rendered frame, as one block. *)
Lemma rendered_block df :
  renderable df ->
  let block := md_line (columns df)
               :: md_line (repeat (u "---") (length (columns df)))
               :: map (fun row => md_line (map cell_text row)) (rows df) in
  forallb table_line block = true
  /\ map rstrip block = block
  /\ forallb (fun l => negb (contains NEWLINE l)) block = true
  /\ flush [] block = [trimmed df].
Proof.
  intros (Hn & Hw & Hc & Hr) block. subst block. repeat split.
  - cbn [forallb]. rewrite !table_line_md_line. cbn [andb].
    apply forallb_forall. intros l Hl. apply in_map_iff in Hl as (row & <- & _).
    apply table_line_md_line.
  - cbn [map]. rewrite !rstrip_md_line. do 2 f_equal. rewrite map_map.
    apply map_ext. intros row. apply rstrip_md_line.
  - cbn [forallb]. rewrite !md_line_no_newline; cbn [negb andb].
    + rewrite forallb_forall. intros l Hl.
      apply in_map_iff in Hl as (row & <- & Hin).
      rewrite forallb_forall in Hr. specialize (Hr row Hin).
      rewrite md_line_no_newline; [reflexivity |].
      apply plain_no_newline. now apply plain_cells.
    + clear. induction (length (columns df)); [reflexivity | assumption].
    + now apply plain_no_newline.
  - unfold flush. now rewrite parse_rendered.
Qed.

Lemma extract_rendered df :
  renderable df -> _extract_markdown_tables (md_table df) = [trimmed df].
Proof.
  intros H. destruct (rendered_block df H) as (Ht & Hs & Hn & Hf).
  rewrite md_table_lines, extract_as_lines, (split_lines _ Hn).
  rewrite extract_lines_block; [| discriminate | assumption | reflexivity].
  rewrite Hs, Hf. reflexivity.
Qed.

Lemma tidy_plain s : tidy s -> plain s = true.
Proof. intros (_ & Hp & Hn). unfold plain. now rewrite Hp, Hn. Qed.

Lemma tidy_rows_trimmed (rs : list (list cell)) :
  Forall (Forall (fun c : cell => exists s, c = Some s /\ tidy s)) rs ->
  map (map (@Some str)) (map (map (fun c => strip (cell_text c))) rs) = rs.
Proof.
  intros H. rewrite map_map. rewrite <- (map_id rs) at 2.
  apply map_ext_in. intros row Hin. rewrite Forall_forall in H.
  specialize (H row Hin). rewrite map_map. rewrite <- (map_id row) at 2.
  apply map_ext_in. intros c Hc. rewrite Forall_forall in H.
  destruct (H c Hc) as (s & -> & Hs & _). cbn [cell_text]. now rewrite Hs.
Qed.

(** X7: an extracted table with two columns or more is a fixed point of
    rendering and extracting: the text [_dataframe_to_md] renders for it
    is extracted to that same table and nothing else. *)
Theorem extracted_table_roundtrip content df :
  In df (_extract_markdown_tables content) ->
  (2 <= length (columns df))%nat ->
  _extract_markdown_tables (md_table (fillna df)) = [df].
Proof.
  intros Hin Hn.
  pose proof (extract_parsed content) as Hp. rewrite Forall_forall in Hp.
  destruct (Hp df Hin) as [block Hb]. apply parse_rows_width in Hb.
  pose proof (proj1 (Forall_forall _ _) (extracted_from_lines content) df Hin) as Ht.
  apply parsed_tidy in Ht as [Hc Hr].
  rewrite md_table_fillna, extract_rendered.
  - f_equal. unfold trimmed, DataFrame_of. destruct df as [cols rs].
    cbn [columns rows] in *. rewrite (tidy_rows_trimmed _ Hr). f_equal.
    rewrite <- (map_id cols) at 2. apply map_ext_in. intros c Hc'.
    rewrite Forall_forall in Hc. now destruct (Hc c Hc') as [-> _].
  - repeat split; try assumption.
    + apply forallb_forall. intros c Hc'. rewrite Forall_forall in Hc.
      now apply tidy_plain, Hc.
    + apply forallb_forall. intros row Hrow. apply forallb_forall. intros c Hc'.
      rewrite Forall_forall in Hr. specialize (Hr row Hrow).
      rewrite Forall_forall in Hr. destruct (Hr c Hc') as (s & -> & Hs).
      now apply tidy_plain.
Qed.

Lemma extracted_table_roundtrip_witness :
  _extract_markdown_tables
    (md_table (fillna (DataFrame_of [[u "1"; u ""]] [u "a b"; u "c"])))
  = [DataFrame_of [[u "1"; u ""]] [u "a b"; u "c"]].
Proof.
  apply (extracted_table_roundtrip (u "|  a b | c  |" ++ [NEWLINE] ++ u "| 1 ||")).
  - left. reflexivity.
  - cbn. lia.
Defined.

End RenderExtract.

(** ** What [excel_to_md] writes, [_extract_markdown_tables] reads *)

Section Sheets.

Lemma empty_fillna df : empty (fillna df) = empty df.
Proof. unfold empty, fillna. cbn [rows columns]. now destruct (rows df). Qed.

Lemma sheet_block_lines many t :
  sheet_block many t = concat (map (fun l => l ++ [NEWLINE]) (sheet_lines many t)).
Proof.
  unfold sheet_block, sheet_lines. rewrite !map_app, !concat_app. f_equal.
  - destruct many; [| reflexivity]. cbn [map concat app].
    rewrite <- !app_assoc. reflexivity.
  - f_equal. destruct (negb (empty (fillna (snd t)))); [| reflexivity].
    apply md_table_lines.
Qed.

Lemma sheet_blocks_lines many tbls :
  concat (map (sheet_block many) tbls)
  = concat (map (fun l => l ++ [NEWLINE]) (concat (map (sheet_lines many) tbls))).
Proof.
  induction tbls as [| t tbls IH]; [reflexivity |].
  cbn [map concat]. now rewrite map_app, concat_app, IH, sheet_block_lines.
Qed.

Lemma heading_line name :
  table_line (u "## " ++ name) = false.
Proof. now apply table_line_other_start. Qed.

Lemma sheet_lines_no_newline many t :
  contains NEWLINE (fst t) = false ->
  (empty (snd t) = false -> renderable (snd t)) ->
  forallb (fun l => negb (contains NEWLINE l)) (sheet_lines many t) = true.
Proof.
  intros Hname Hok. unfold sheet_lines. rewrite !forallb_app.
  apply andb_true_intro. split; [| apply andb_true_intro; split; [| reflexivity]].
  - destruct many; [| reflexivity]. cbn [forallb].
    rewrite contains_app, Hname. reflexivity.
  - rewrite empty_fillna. destruct (empty (snd t)) eqn:E; [reflexivity |].
    cbn [negb]. now destruct (rendered_block _ (renderable_fillna _ (Hok eq_refl)))
      as (_ & _ & Hn & _).
Qed.

(** The lines of one sheet give its table, if it has one, and leave the
    lines after them to be read on their own. *)
Lemma extract_sheet_lines many t rest :
  (empty (snd t) = false -> renderable (snd t)) ->
  extract_lines (sheet_lines many t ++ rest)
  = (if empty (snd t) then [] else [trimmed (snd t)]) ++ extract_lines rest.
Proof.
  intros Hok. unfold sheet_lines. rewrite <- !app_assoc.
  assert (Hhead : forall tail,
             extract_lines ((if many then [u "## " ++ fst t; []] else []) ++ tail)
             = extract_lines tail).
  { intros tail. destruct many; [| reflexivity]. cbn [app].
    rewrite (extract_lines_skip _ _ (heading_line (fst t))).
    exact (extract_lines_skip [] tail eq_refl). }
  rewrite Hhead, empty_fillna. destruct (empty (snd t)) eqn:E; cbn [negb app].
  - exact (extract_lines_skip [] rest eq_refl).
  - destruct (rendered_block _ (renderable_fillna _ (Hok eq_refl)))
      as (Ht & Hs & _ & Hf). cbv zeta in *.
    change (md_line (columns (fillna (snd t)))
            :: md_line (repeat (u "---") (length (columns (fillna (snd t)))))
            :: map (fun row => md_line (map cell_text row)) (rows (fillna (snd t)))
               ++ [] :: rest)
      with ((md_line (columns (fillna (snd t)))
             :: md_line (repeat (u "---") (length (columns (fillna (snd t)))))
             :: map (fun row => md_line (map cell_text row)) (rows (fillna (snd t))))
            ++ [] :: rest).
    rewrite extract_lines_block; [| discriminate | assumption | reflexivity].
    now rewrite Hs, Hf, trimmed_fillna.
Qed.

Lemma extract_sheets_lines many tbls : forall rest,
  Forall (fun t => empty (snd t) = false -> renderable (snd t)) tbls ->
  extract_lines (concat (map (sheet_lines many) tbls) ++ rest)
  = map (fun t => trimmed (snd t)) (filter (fun t => negb (empty (snd t))) tbls)
    ++ extract_lines rest.
Proof.
  induction tbls as [| t tbls IH]; intros rest H; [reflexivity |].
  inversion H as [| ? ? Ht Hts]; subst. cbn [map concat filter].
  rewrite <- app_assoc, (extract_sheet_lines _ _ _ Ht), (IH _ Hts).
  destruct (empty (snd t)); cbn [negb map app]; reflexivity.
Qed.

Lemma excel_markdown_roundtrip_core many tbls :
  Forall (fun t => contains NEWLINE (fst t) = false
                   /\ (empty (snd t) = false -> renderable (snd t))) tbls ->
  _extract_markdown_tables (concat (map (sheet_block many) tbls))
  = map (fun t => trimmed (snd t)) (filter (fun t => negb (empty (snd t))) tbls).
Proof.
  intros H. rewrite sheet_blocks_lines, extract_as_lines, split_lines.
  - rewrite extract_sheets_lines.
    + apply app_nil_r.
    + eapply Forall_impl; [| exact H]. now intros t [_ ?].
  - apply forallb_forall. intros l Hl. apply in_concat in Hl as (ls & Hls & Hl).
    apply in_map_iff in Hls as (t & <- & Ht). rewrite Forall_forall in H.
    destruct (H t Ht) as [Hname Hok].
    pose proof (sheet_lines_no_newline many t Hname Hok) as Hn.
    rewrite forallb_forall in Hn. now apply Hn.
Qed.

(** X8: the Markdown text [excel_to_md] builds for a workbook is read
    back by [_extract_markdown_tables] as one table per non-empty sheet,
    in sheet order, each the sheet with its texts stripped; sheet names
    are free of line feeds and non-empty sheets are renderable. *)
Theorem excel_markdown_roundtrip many tbls :
  Forall (fun t => contains NEWLINE (fst t) = false
                   /\ (empty (snd t) = false -> renderable (snd t))) tbls ->
  _extract_markdown_tables (concat (map (sheet_block many) tbls))
  = map (fun t => trimmed (snd t)) (filter (fun t => negb (empty (snd t))) tbls).
Proof. exact (excel_markdown_roundtrip_core many tbls). Qed.

Lemma excel_markdown_roundtrip_witness :
  _extract_markdown_tables
    (concat (map (sheet_block true)
               [(u "Prices", mkDataFrame [u "item"; u "eur"] [[Some (u "tea"); None]]);
                (u "Empty", mkDataFrame [u "x"] []);
                (u "Stock", mkDataFrame [u "item"; u "n"] [[Some (u " tea "); Some (u "4")]])]))
  = [DataFrame_of [[u "tea"; u ""]] [u "item"; u "eur"];
     DataFrame_of [[u "tea"; u "4"]] [u "item"; u "n"]].
Proof.
  apply (excel_markdown_roundtrip true).
  repeat constructor; try discriminate; cbn; lia.
Defined.

End Sheets.

(** ** Which lines are table lines, which lines are separators *)

Section Lines.

Lemma lstrip_decompose s :
  exists ws, forallb isspace ws = true /\ s = ws ++ lstrip s.
Proof.
  induction s as [| c s (ws & Hws & E)]; [now exists [] |]. cbn [lstrip].
  destruct (isspace c) eqn:Hc; [| now exists []].
  exists (c :: ws). cbn [forallb app]. rewrite Hc, Hws. split; [reflexivity |].
  now rewrite <- E.
Qed.

Lemma lstrip_spaces ws x : forallb isspace ws = true -> lstrip (ws ++ x) = lstrip x.
Proof.
  induction ws as [| c ws IH]; intros H; [reflexivity |].
  cbn [forallb] in H. apply andb_prop in H as [Hc Hws].
  cbn [app lstrip]. rewrite Hc. now apply IH.
Qed.

Lemma lstrip_app_keep x c y :
  isspace c = false -> lstrip (x ++ c :: y) = lstrip x ++ c :: y.
Proof.
  intros H. induction x as [| d x IH]; cbn [app lstrip].
  - now rewrite H.
  - destruct (isspace d); [exact IH | reflexivity].
Qed.

Lemma rstrip_app_keep p c t :
  isspace c = false -> rstrip (p ++ c :: t) = p ++ c :: rstrip t.
Proof.
  intros H. unfold rstrip. rewrite rev_app_distr. cbn [rev].
  rewrite <- app_assoc. cbn [app]. rewrite (lstrip_app_keep _ _ _ H).
  rewrite rev_app_distr. cbn [rev]. rewrite rev_involutive, <- app_assoc.
  reflexivity.
Qed.

Lemma rstrip_spaces ws : forallb isspace ws = true -> rstrip ws = [].
Proof.
  intros H. unfold rstrip.
  assert (R : forallb isspace (rev ws) = true).
  { apply forallb_forall. intros c Hc. apply in_rev in Hc.
    rewrite forallb_forall in H. now apply H. }
  rewrite <- (app_nil_r (rev ws)), (lstrip_spaces _ _ R). reflexivity.
Qed.

(** X9: the test of line 116 comes down to one question: is the first
    character after the leading whitespace a pipe.  The [in] half of the
    test never decides. *)
Theorem table_line_first_character line :
  table_line line = startswith PIPE (lstrip line).
Proof.
  destruct (lstrip_decompose line) as (ws & Hws & E).
  destruct (lstrip_cases line) as [Hn | (c & t & Hc & Hs)].
  - rewrite Hn in *. rewrite app_nil_r in E. subst line.
    unfold table_line. cbv zeta. now rewrite (rstrip_spaces _ Hws).
  - rewrite Hc in *. rewrite E. unfold table_line. cbv zeta.
    rewrite (rstrip_app_keep _ _ _ Hs). unfold strip.
    rewrite (lstrip_spaces _ _ Hws). cbn [lstrip]. rewrite Hs.
    rewrite (rstrip_cons_keep _ _ Hs). cbn [startswith].
    destruct (N.eqb_spec c PIPE) as [-> | Hne].
    + rewrite contains_app. unfold contains at 2. cbn [existsb].
      rewrite N.eqb_refl. cbn [orb]. now rewrite orb_true_r.
    + apply andb_false_r.
Qed.

(** X10: the separator pattern accepts a line exactly when the line
    opens with a pipe and two cells, each non-empty, made of whitespace,
    colons and hyphens and closed by a pipe; what follows the third pipe
    is not examined, and a line with anything before its first pipe is
    refused. *)
Theorem separator_pattern_accepts s :
  (Re.re_match separator_re s = true <->
   exists a b rest,
     s = PIPE :: a ++ PIPE :: b ++ PIPE :: rest
     /\ a <> [] /\ b <> []
     /\ forallb sep_class a = true /\ forallb sep_class b = true)
  /\ (startswith PIPE s = false -> Re.re_match separator_re s = false).
Proof.
  split; [apply separator_match |].
  intros H. apply not_true_is_false. intros M.
  apply separator_match in M as (a & b & rest & -> & _).
  cbn [startswith] in H. now rewrite N.eqb_refl in H.
Qed.

Lemma separator_pattern_accepts_witness :
  Re.re_match separator_re (u "  |---|---|") = false.
Proof.
  apply (proj2 (separator_pattern_accepts (u "  |---|---|"))). reflexivity.
Defined.

End Lines.

(** ** The candidate loop as a function of the file *)

Section DetectionRun.

Context (L : Libraries).

Lemma try_encodings_run path n b encodings : forall w,
  disk w path = Some b ->
  try_encodings L encodings path n w
  = (loop_result L b n encodings, called (loop_calls L b n encodings) w).
Proof.
  induction encodings as [| e rest IH]; intros w Hb.
  - cbn. now rewrite called_nil.
  - cbn [try_encodings loop_result loop_calls]. unfold try_except, bind.
    rewrite (probe_run _ _ _ _ _ _ Hb). unfold skipped.
    destruct (probe_result L b n e) as [x | t].
    + destruct (decode_or_lookup x).
      * rewrite IH by exact Hb. now rewrite called_called.
      * now rewrite app_nil_r.
    + unfold ret. now rewrite app_nil_r.
Qed.

(** [detect_encoding] on a readable file, case by case. *)
Lemma detect_encoding_run path n w b :
  disk w path = Some b ->
  detect_encoding L path n w
  = match loop_result L b n SUPPORTED_ENCODINGS with
    | Raise e => (Raise e, called (loop_calls L b n SUPPORTED_ENCODINGS) w)
    | Ret (Some encoding) =>
        (Ret (Some encoding), called (loop_calls L b n SUPPORTED_ENCODINGS) w)
    | Ret None =>
        match chardet L with
        | None =>
            (Ret (Some (u "utf-8")), called (loop_calls L b n SUPPORTED_ENCODINGS) w)
        | Some detect =>
            let result := detect (firstn (n * 4) b) in
            (Ret (if PrimFloat.ltb 0.7%float (cd_confidence result)
                  then cd_encoding result
                  else Some (u "utf-8")),
             called (loop_calls L b n SUPPORTED_ENCODINGS ++ [CallChardet]) w)
        end
    end.
Proof.
  intros Hb. unfold detect_encoding, bind. rewrite (try_encodings_run _ _ _ _ _ Hb).
  destruct (loop_result L b n SUPPORTED_ENCODINGS) as [[encoding |] | e];
    try reflexivity.
  unfold chardet_fallback, try_except, bind, open_rb, log.
  destruct (chardet L) as [detect |]; [| reflexivity].
  cbn [disk called]. rewrite Hb. cbv zeta.
  destruct (PrimFloat.ltb 0.7%float (cd_confidence (detect (firstn (n * 4) b))));
    unfold ret; f_equal; same_world.
Qed.

Lemma detect_encoding_missing path n w :
  disk w path = None ->
  detect_encoding L path n w = (Raise FileNotFoundError, w).
Proof.
  intros Hb.
  assert (P : forall e, probe L path e n w = (Raise FileNotFoundError, w))
    by (intros e; unfold probe, bind, open_rb; now rewrite Hb).
  assert (T : forall e rest,
             try_encodings L (e :: rest) path n w = (Raise FileNotFoundError, w))
    by (intros e rest; cbn [try_encodings]; unfold try_except, bind; now rewrite P).
  unfold detect_encoding, bind, SUPPORTED_ENCODINGS. now rewrite T.
Qed.

Lemma detect_encoding_frame path n w :
  exists cs, snd (detect_encoding L path n w) = called cs w.
Proof.
  destruct (disk w path) as [b |] eqn:Hb.
  - rewrite (detect_encoding_run _ _ _ _ Hb).
    destruct (loop_result L b n SUPPORTED_ENCODINGS) as [[encoding |] | e];
      try (eexists; reflexivity).
    destruct (chardet L); eexists; reflexivity.
  - rewrite (detect_encoding_missing _ _ _ Hb). exists []. cbn [snd].
    now rewrite called_nil.
Qed.

(** X11: [detect_encoding] only reads.  Whatever it returns or raises,
    the world afterwards is the world before with more library calls
    logged: nothing is printed and nothing is written; on a missing file
    it raises [FileNotFoundError] before any library call. *)
Theorem detect_encoding_only_reads path n w :
  (exists cs, snd (detect_encoding L path n w) = called cs w)
  /\ (disk w path = None ->
      detect_encoding L path n w = (Raise FileNotFoundError, w)).
Proof.
  split; [apply detect_encoding_frame | apply detect_encoding_missing].
Qed.

Lemma loop_skip_all b n before : forall rest,
  forallb (skipped L b n) before = true ->
  loop_result L b n (before ++ rest) = loop_result L b n rest
  /\ loop_calls L b n (before ++ rest)
     = flat_map (probe_calls L b n) before ++ loop_calls L b n rest.
Proof.
  induction before as [| e before IH]; intros rest H; [now split |].
  cbn [forallb] in H. apply andb_prop in H as [He Hs].
  destruct (IH rest Hs) as [Hr Hc].
  cbn [app loop_result loop_calls flat_map]. rewrite He, Hr, Hc. split.
  - unfold skipped in He. destruct (probe_result L b n e) as [x | t];
      [now rewrite He | discriminate].
  - now rewrite app_assoc.
Qed.

(** X12: a candidate that fails with anything but a decoding or lookup
    error ends the detection: when every candidate before it is skipped,
    its exception leaves [detect_encoding], the candidates after it are
    not tried and chardet is not asked. *)
Theorem detect_encoding_propagates path n w b before encoding after e :
  disk w path = Some b ->
  SUPPORTED_ENCODINGS = before ++ encoding :: after ->
  forallb (skipped L b n) before = true ->
  probe_result L b n encoding = inl e ->
  decode_or_lookup e = false ->
  detect_encoding L path n w
  = (Raise e, called (flat_map (probe_calls L b n) (before ++ [encoding])) w).
Proof.
  intros Hb E Hs Hp He. rewrite (detect_encoding_run _ _ _ _ Hb), E.
  destruct (loop_skip_all b n before (encoding :: after) Hs) as [-> ->].
  cbn [loop_result loop_calls]. unfold skipped. rewrite Hp, He.
  rewrite flat_map_app. cbn [flat_map]. now rewrite !app_nil_r.
Qed.

Lemma loop_result_some b n encodings encoding :
  loop_result L b n encodings = Ret (Some encoding) ->
  In encoding encodings /\ passes L b n encoding = true.
Proof.
  induction encodings as [| e rest IH]; cbn [loop_result]; [discriminate |].
  unfold passes. destruct (probe_result L b n e) as [x | t] eqn:P.
  - destruct (decode_or_lookup x); [| discriminate].
    intros H. destruct (IH H) as [Hin Hp]. split; [now right | exact Hp].
  - intros H. injection H as <-. rewrite P. split; [now left | reflexivity].
Qed.

(** X13: what [detect_encoding] returns is always one of three things:
    a candidate of [SUPPORTED_ENCODINGS] that passes both checks on the
    file, the guess of chardet made with a confidence above 0.7, or the
    default [utf-8]. *)
Theorem detect_encoding_result path n w r w' :
  detect_encoding L path n w = (Ret r, w') ->
  exists b, disk w path = Some b
  /\ ((exists encoding,
          r = Some encoding /\ In encoding SUPPORTED_ENCODINGS
          /\ passes L b n encoding = true)
      \/ (exists detect,
             chardet L = Some detect
             /\ PrimFloat.ltb 0.7%float (cd_confidence (detect (firstn (n * 4) b))) = true
             /\ r = cd_encoding (detect (firstn (n * 4) b)))
      \/ r = Some (u "utf-8")).
Proof.
  intros H. destruct (disk w path) as [b |] eqn:Hb.
  - exists b. split; [reflexivity |]. rewrite (detect_encoding_run _ _ _ _ Hb) in H.
    destruct (loop_result L b n SUPPORTED_ENCODINGS) as [[encoding |] | e] eqn:Hl.
    + injection H as <- _. left. exists encoding.
      destruct (loop_result_some _ _ _ _ Hl). auto.
    + destruct (chardet L) as [detect |].
      * cbv zeta in H. injection H as <- _.
        destruct (PrimFloat.ltb 0.7%float (cd_confidence (detect (firstn (n * 4) b))))
          eqn:Hc; [right; left; now exists detect | now right; right].
      * injection H as <- _. now right; right.
    + discriminate.
  - rewrite (detect_encoding_missing _ _ _ Hb) in H. discriminate.
Qed.

End DetectionRun.

(** ** The converters, case by case *)

Section ConverterRuns.

Context (L : Libraries).

Lemma u_inj s1 : forall s2, u s1 = u s2 -> s1 = s2.
Proof.
  induction s1 as [| a s1 IH]; intros [| a' s2] H; try discriminate; [reflexivity |].
  cbn [u] in H. injection H as Ha Hs. f_equal; [| now apply IH].
  now rewrite <- (ascii_N_embedding a), <- (ascii_N_embedding a'), Ha.
Qed.

Lemma to_uint_not_nil n : Nat.to_uint n <> Decimal.Nil.
Proof.
  intros H. pose proof (DecimalNat.Unsigned.of_to n) as E. rewrite H in E.
  cbn in E. subst n. discriminate.
Qed.

Lemma str_of_nat_inj a b : str_of_nat a = str_of_nat b -> a = b.
Proof.
  intros H. apply u_inj in H. apply (f_equal NilZero.uint_of_string) in H.
  rewrite !NilZero.usu in H by apply to_uint_not_nil.
  injection H as H. now apply DecimalNat.Unsigned.to_uint_inj.
Qed.

Lemma sheet_name_at_inj sheet_name i j :
  sheet_name_at sheet_name i = sheet_name_at sheet_name j -> i = j.
Proof.
  unfold sheet_name_at. intros H.
  destruct (Nat.ltb_spec 0 i) as [Hi | Hi], (Nat.ltb_spec 0 j) as [Hj | Hj].
  - apply app_inv_head in H. apply app_inv_head in H.
    apply str_of_nat_inj in H. lia.
  - apply (f_equal (@length N)) in H. rewrite !length_app in H. cbn in H. lia.
  - apply (f_equal (@length N)) in H. rewrite !length_app in H. cbn in H. lia.
  - lia.
Qed.

Lemma name_sheets_spec sheet_name tbls : forall k,
  name_sheets sheet_name k tbls
  = combine (map (sheet_name_at sheet_name) (seq k (length tbls))) tbls.
Proof.
  induction tbls as [| t tbls IH]; intros k; [reflexivity |].
  cbn [name_sheets length seq map combine]. now rewrite IH.
Qed.

Lemma map_fst_combine {A B} (l : list A) : forall l' : list B,
  length l = length l' -> map fst (combine l l') = l.
Proof.
  induction l as [| x l IH]; intros [| y l'] E; try discriminate; [reflexivity |].
  cbn [combine map fst]. f_equal. apply IH. cbn [length] in E. lia.
Qed.

Lemma map_snd_combine {A B} (l : list A) : forall l' : list B,
  length l = length l' -> map snd (combine l l') = l'.
Proof.
  induction l as [| x l IH]; intros [| y l'] E; try discriminate; [reflexivity |].
  cbn [combine map snd]. f_equal. apply IH. cbn [length] in E. lia.
Qed.

(** X14: [md_to_excel] names the sheets [sheet_name], [sheet_name_2],
    [sheet_name_3], ...: one sheet per table, in table order, and no two
    sheets of a workbook share a name. *)
Theorem md_to_excel_sheet_names sheet_name tbls :
  map snd (name_sheets sheet_name 0 tbls) = tbls
  /\ map fst (name_sheets sheet_name 0 tbls)
     = map (sheet_name_at sheet_name) (seq 0 (length tbls))
  /\ NoDup (map fst (name_sheets sheet_name 0 tbls)).
Proof.
  rewrite name_sheets_spec.
  assert (Hlen : length (map (sheet_name_at sheet_name) (seq 0 (length tbls)))
                 = length tbls) by now rewrite length_map, length_seq.
  rewrite (map_fst_combine _ _ Hlen), (map_snd_combine _ _ Hlen).
  split; [reflexivity | split; [reflexivity |]].
  apply Finite.Injective_map_NoDup; [| apply seq_NoDup].
  intros i j. apply sheet_name_at_inj.
Qed.

(** X15: [md_to_excel] once the encoding is detected.  A failing read is
    caught: message, [False].  Text without a table: message, [False],
    no workbook.  Otherwise the tables go to the workbook writer; its
    failure is not caught, its success gives one workbook with the named
    sheets, the closing message and [True]. *)
Theorem md_to_excel_after_detection md_file excel_file sheet_name w encoding w1 b :
  detect_encoding L md_file 1024 w = (Ret encoding, w1) ->
  disk w1 md_file = Some b ->
  let xlsx := match excel_file with
              | None => with_suffix L md_file (u ".xlsx")
              | Some f => f
              end in
  let w2 := printed [MsgDetected encoding] (called [CallTextRead encoding] w1) in
  md_to_excel L md_file excel_file sheet_name w
  = match text_read L encoding b None with
    | inl e => (Ret false, printed [MsgReadError e] w2)
    | inr content =>
        match _extract_markdown_tables content with
        | [] => (Ret false, printed [MsgNoTables] w2)
        | tbls =>
            let sheets := name_sheets sheet_name 0 tbls in
            match excel_writer L xlsx sheets with
            | Some e => (Raise e, called [CallExcelWriter xlsx] w2)
            | None =>
                (Ret true,
                 printed [MsgDone xlsx]
                   (booked xlsx sheets (called [CallExcelWriter xlsx] w2)))
            end
        end
    end.
Proof.
  intros Hd Hb xlsx w2. unfold md_to_excel. fold xlsx.
  unfold bind at 1. rewrite Hd. unfold bind at 1. unfold print at 1.
  unfold bind at 1. unfold try_except at 1. unfold bind at 1.
  unfold read_text, bind, open_rb, log. cbn [disk printed called]. rewrite Hb.
  destruct (text_read L encoding b None) as [e | content]; cbn [lift raise ret any_exception].
  - unfold print, ret. subst w2. f_equal; same_world.
  - unfold ret. destruct (_extract_markdown_tables content) as [| t tbls] eqn:E.
    + cbn [truthy negb]. unfold print. subst w2. f_equal; same_world.
    + cbn [truthy negb]. unfold write_workbook, bind, log.
      destruct (excel_writer L xlsx (name_sheets sheet_name 0 (t :: tbls))).
      * subst w2. f_equal; same_world.
      * unfold print. subst w2. unfold booked. f_equal; same_world.
Qed.





(** X18: when [pd.read_csv] returns with the delimiter given,
    [convert_csv_to_md] tries no other delimiter and prints no reading
    error: its result is what [_dataframe_to_md] makes of that frame. *)
Theorem convert_csv_first_read csv_file md_file delimiter w encoding w1 df :
  detect_encoding L csv_file 1024 w = (Ret encoding, w1) ->
  read_csv L (disk w1 csv_file) encoding delimiter = inr df ->
  convert_csv_to_md L csv_file md_file delimiter w
  = _dataframe_to_md L df (md_path L csv_file md_file)
      (printed [MsgDetected encoding] (called [CallReadCsv delimiter] w1)).
Proof.
  intros Hd Hr. unfold convert_csv_to_md.
  unfold bind at 1. rewrite Hd. unfold bind at 1. unfold print at 1.
  unfold bind at 1. unfold try_except at 1. unfold bind at 1.
  rewrite pd_read_csv_run. cbn [disk printed]. rewrite Hr. unfold ret.
  unfold md_path. f_equal; same_world.
Qed.

End ConverterRuns.

(** ** From workbook to Markdown and back *)

Section WorkbookRoundTrip.

Context (L : Libraries).

(** X19: when the workbook is read and the Markdown file is written,
    [excel_to_md] returns [True], the file holds one block per sheet, and
    [_extract_markdown_tables] finds in that text the non-empty sheets,
    in order, each with its texts stripped. *)
Theorem excel_to_md_roundtrip excel_file md_file sheet_name w tbls w1 :
  let path := md_path L excel_file md_file in
  let text := concat (map (sheet_block (1 <? length tbls)%nat) tbls) in
  load_sheets L excel_file sheet_name w = (Ret tbls, w1) ->
  text_write L path text = None ->
  Forall (fun t => contains NEWLINE (fst t) = false
                   /\ (empty (snd t) = false -> renderable (snd t))) tbls ->
  excel_to_md L excel_file md_file sheet_name w
  = (Ret true, printed [MsgDone path] (saved path text w1))
  /\ _extract_markdown_tables text
     = map (fun t => trimmed (snd t)) (filter (fun t => negb (empty (snd t))) tbls).
Proof.
  intros path text Hl Hw Hok. subst path text. unfold md_path in *. split.
  - unfold excel_to_md, bind, try_except. rewrite Hl. unfold ret.
    now rewrite save_md_run, Hw.
  - now apply excel_markdown_roundtrip_core.
Qed.



End WorkbookRoundTrip.

(** ** More runs on concrete files *)

Section MoreRuns.

Lemma detect_encoding_only_reads_witness :
  detect_encoding Double.libs (u "gone.md") 1024 Double.no_files
  = (Raise FileNotFoundError, Double.no_files).
Proof.
  apply (proj2 (detect_encoding_only_reads Double.libs (u "gone.md") 1024 Double.no_files)).
  reflexivity.
Defined.

Lemma detect_encoding_propagates_witness :
  fst (detect_encoding Double.failing_reads (u "a.txt") 1024
         (Double.one_file (u "a.txt") (Double.b "abc")))
  = Raise OSError.
Proof.
  rewrite (detect_encoding_propagates Double.failing_reads (u "a.txt") 1024
             (Double.one_file (u "a.txt") (Double.b "abc")) (Double.b "abc")
             [] (u "utf-8") (tl SUPPORTED_ENCODINGS) OSError
             eq_refl eq_refl eq_refl eq_refl eq_refl).
  reflexivity.
Defined.

Lemma detect_encoding_result_witness :
  exists b,
    disk (Double.one_file (u "c.txt") [x63; xe9]) (u "c.txt") = Some b
    /\ ((exists encoding,
            Some (u "latin-1") = Some encoding /\ In encoding SUPPORTED_ENCODINGS
            /\ passes Double.libs b 1024 encoding = true)
        \/ (exists detect,
               chardet Double.libs = Some detect
               /\ PrimFloat.ltb 0.7%float
                    (cd_confidence (detect (firstn (1024 * 4) b))) = true
               /\ Some (u "latin-1") = cd_encoding (detect (firstn (1024 * 4) b)))
        \/ Some (u "latin-1") = Some (u "utf-8")).
Proof.
  refine (detect_encoding_result Double.libs (u "c.txt") 1024
            (Double.one_file (u "c.txt") [x63; xe9]) (Some (u "latin-1"))
            (snd (detect_encoding Double.libs (u "c.txt") 1024
                    (Double.one_file (u "c.txt") [x63; xe9])))
            _).
  vm_compute. reflexivity.
Defined.

Lemma md_to_excel_after_detection_witness :
  let table := Double.b "| A | B |" ++ [x0a] ++ Double.b "|---|---|" ++ [x0a]
               ++ Double.b "| 1 | 2 |" ++ [x0a] ++ [x0a]
               ++ Double.b "| C | D |" ++ [x0a] ++ Double.b "| 3 | 4 |" ++ [x0a] in
  let r := md_to_excel Double.libs (u "t.md") None (u "Sheet1")
             (Double.one_file (u "t.md") table) in
  fst r = Ret true
  /\ workbooks (snd r)
     = [(u "t.xlsx",
         [(u "Sheet1", DataFrame_of [[u "1"; u "2"]] [u "A"; u "B"]);
          (u "Sheet1_2", DataFrame_of [[u "3"; u "4"]] [u "C"; u "D"])])].
Proof.
  intros table r. subst r.
  rewrite (md_to_excel_after_detection Double.libs (u "t.md") None (u "Sheet1")
             (Double.one_file (u "t.md") table) (Some (u "utf-8"))
             (called [CallDecode (u "utf-8"); CallTextRead (Some (u "utf-8"))]
                (Double.one_file (u "t.md") table))
             table eq_refl eq_refl).
  split; vm_compute; reflexivity.
Defined.



Lemma convert_csv_first_read_witness :
  let commas := Double.b "a,b" ++ [x0a] ++ Double.b "1,2" ++ [x0a] in
  let r := convert_csv_to_md Double.libs (u "data.csv") None (u ",")
             (Double.one_file (u "data.csv") commas) in
  fst r = Ret true
  /\ calls (snd r)
     = [CallDecode (u "utf-8"); CallTextRead (Some (u "utf-8")); CallReadCsv (u ",")].
Proof.
  intros commas r. subst r.
  rewrite (convert_csv_first_read Double.libs (u "data.csv") None (u ",")
             (Double.one_file (u "data.csv") commas) (Some (u "utf-8"))
             (called [CallDecode (u "utf-8"); CallTextRead (Some (u "utf-8"))]
                (Double.one_file (u "data.csv") commas))
             (mkDataFrame [u "a"; u "b"] [[Some (u "1"); Some (u "2")]])
             eq_refl eq_refl).
  split; vm_compute; reflexivity.
Defined.

Lemma excel_to_md_roundtrip_witness :
  let sheets := [(u "Prices", mkDataFrame [u "item"; u "eur"] [[Some (u "tea"); None]]);
                 (u "Empty", mkDataFrame [u "x"] [])] in
  let w := Double.one_file (u "book.xlsx") [] in
  excel_to_md Double.two_sheets (u "book.xlsx") None None w
  = (Ret true,
     printed [MsgDone (u "book.md")]
       (saved (u "book.md") (concat (map (sheet_block true) sheets))
          (called [CallSheetNames; CallReadExcel (Some (u "Prices"));
                   CallReadExcel (Some (u "Empty"))] w)))
  /\ _extract_markdown_tables (concat (map (sheet_block true) sheets))
     = [DataFrame_of [[u "tea"; u ""]] [u "item"; u "eur"]].
Proof.
  intros sheets w.
  apply (excel_to_md_roundtrip Double.two_sheets (u "book.xlsx") None None w sheets
           (called [CallSheetNames; CallReadExcel (Some (u "Prices"));
                    CallReadExcel (Some (u "Empty"))] w)).
  - reflexivity.
  - reflexivity.
  - repeat constructor; try discriminate; cbn; lia.
Defined.

End MoreRuns.
